(** * Denormalisation and cross-linking engine of [scripts/generate-html.ts]

    A shallow embedding of the data pipeline of [generateHTML] (index
    construction, state-name backfill, address-based link inference,
    aggregation, projection) and of the company-sitemap loop of
    [generateSitemaps], followed by the properties proved about them. *)

From Stdlib Require Import String Ascii List Arith Lia DecimalString DecimalNat.
From stdpp Require Import base option list strings.

Open Scope string_scope.

(** ** JavaScript strings and the built-ins the script uses *)

(** [s.split(',')]: always at least one segment; segments are not trimmed. *)
Fixpoint split_comma (s : string) : list string :=
  match s with
  | EmptyString => [ "" ]
  | String c s' =>
      if Ascii.eqb c ","%char then "" :: split_comma s'
      else match split_comma s' with
           | [] => [ String c "" ]
           | seg :: segs => String c seg :: segs
           end
  end.

(** [segs.join(',')], used to characterise [split_comma]. *)
Fixpoint join_comma (segs : list string) : string :=
  match segs with
  | [] => ""
  | [ seg ] => seg
  | seg :: segs' => seg ++ "," ++ join_comma segs'
  end.

(** Whether a character occurs in a string. *)
Fixpoint has_char (c : ascii) (s : string) : bool :=
  match s with
  | EmptyString => false
  | String c' s' => Ascii.eqb c c' || has_char c s'
  end.

(** Truthiness of an optional string property: [undefined] and [""] are
    falsy, every other string is truthy. *)
Definition truthy (o : option string) : bool :=
  match o with
  | Some s => negb (bool_decide (s = ""))
  | None => false
  end.

(** A property is _set_ to [v] when it is truthy and holds [v]; this is what
    the guards [x.f && x.f === v] of the script test. *)
Definition set_to (o : option string) (v : string) : bool :=
  truthy o && bool_decide (o = Some v).

(** [(n || 0)] on an optional count. *)
Definition or_zero (n : option nat) : nat := default 0 n.

(** A template-literal hole [${x}] for an optional string. *)
Definition interpolate (o : option string) : string := default "undefined" o.

(** [String(n)] for a non-negative integer. *)
Definition string_of_nat (n : nat) : string :=
  NilEmpty.string_of_uint (Nat.to_uint n).

(** Instances of the string built-ins on ASCII text, where [toLowerCase] and
    [trim] of JavaScript act as follows. *)
Definition ascii_lower (c : ascii) : ascii :=
  let n := nat_of_ascii c in
  if ((65 <=? n) && (n <=? 90))%nat then ascii_of_nat (n + 32) else c.

Fixpoint ascii_toLowerCase (s : string) : string :=
  match s with
  | EmptyString => EmptyString
  | String c s' => String (ascii_lower c) (ascii_toLowerCase s')
  end.

Definition is_space (c : ascii) : bool :=
  let n := nat_of_ascii c in
  (((9 <=? n) && (n <=? 13)) || (n =? 32))%nat.

Fixpoint trim_start (s : string) : string :=
  match s with
  | EmptyString => EmptyString
  | String c s' => if is_space c then trim_start s' else s
  end.

Fixpoint trim_end (s : string) : string :=
  match s with
  | EmptyString => EmptyString
  | String c s' =>
      match trim_end s' with
      | EmptyString => if is_space c then EmptyString else String c EmptyString
      | t => String c t
      end
  end.

Definition ascii_trim (s : string) : string := trim_end (trim_start s).

(** ** Records loaded from the CSV tables *)

Module BeautySalon.
Record t := mk {
  id : string;
  title : string;
  website : option string;
  telephone : option string;
  address : option string;
  postal_code : option string;
  latitude : option string;
  longitude : option string;
  email : option string;
  opening_hours : option string;
  description : option string;
  service_product : option string;
  reviews : option string;
  average_star : option string;
  city_id : option string;
  city_name : option string;
  state_id : option string;
  state_name : option string;
  category_ids : option string;
  detail_keys : option string;
  detail_values : option string;
  amenity_ids : option string;
  payment_ids : option string;
  images : option string
}.

(** [salon.city_id = i; salon.city_name = n] *)
Definition set_city (s : t) (i n : string) : t :=
  mk (id s) (title s) (website s) (telephone s) (address s) (postal_code s)
     (latitude s) (longitude s) (email s) (opening_hours s) (description s)
     (service_product s) (reviews s) (average_star s)
     (Some i) (Some n) (state_id s) (state_name s)
     (category_ids s) (detail_keys s) (detail_values s) (amenity_ids s)
     (payment_ids s) (images s).

(** [salon.state_id = i; salon.state_name = n] *)
Definition set_state (s : t) (i n : string) : t :=
  mk (id s) (title s) (website s) (telephone s) (address s) (postal_code s)
     (latitude s) (longitude s) (email s) (opening_hours s) (description s)
     (service_product s) (reviews s) (average_star s)
     (city_id s) (city_name s) (Some i) (Some n)
     (category_ids s) (detail_keys s) (detail_values s) (amenity_ids s)
     (payment_ids s) (images s).
End BeautySalon.

Module City.
Record t := mk {
  id : string;
  city : string;
  state_id : option string;
  state_name : option string;
  salon_count : option nat
}.

Definition set_state_name (c : t) (n : string) : t :=
  mk (id c) (city c) (state_id c) (Some n) (salon_count c).

Definition set_salon_count (c : t) (n : nat) : t :=
  mk (id c) (city c) (state_id c) (state_name c) (Some n).
End City.

Module State.
Record t := mk {
  id : string;
  state : string;
  city_count : option nat;
  salon_count : option nat
}.

Definition set_city_count (s : t) (n : nat) : t :=
  mk (id s) (state s) (Some n) (salon_count s).

Definition set_salon_count (s : t) (n : nat) : t :=
  mk (id s) (state s) (city_count s) (Some n).
End State.

Module Category.
Record t := mk {
  id : string;
  category : string;
  salon_count : option nat
}.

Definition set_salon_count (c : t) (n : nat) : t :=
  mk (id c) (category c) (Some n).
End Category.

(** ** The insertion-ordered [Map] of JavaScript

    Keys are kept in the order of their first insertion; setting an existing
    key replaces its value in place.  The values stored by the script are
    the row objects themselves, shared with the arrays read from the CSV
    files, so a value is modelled as the position of the row in its array. *)

Definition JSMap := list (string * nat).

Fixpoint Map_set (m : JSMap) (k : string) (v : nat) : JSMap :=
  match m with
  | [] => [ (k, v) ]
  | (k', v') :: m' =>
      if bool_decide (k' = k) then (k', v) :: m'
      else (k', v') :: Map_set m' k v
  end.

Fixpoint Map_get (m : JSMap) (k : string) : option nat :=
  match m with
  | [] => None
  | (k', v) :: m' => if bool_decide (k' = k) then Some v else Map_get m' k
  end.

Definition Map_has (m : JSMap) (k : string) : bool :=
  match Map_get m k with Some _ => true | None => false end.

(** [new Map(rows.map(row => [row.id, row]))], given the ids of the rows. *)
Definition Map_of_ids (ids : list string) : JSMap :=
  fold_left (fun m '(i, k) => Map_set m k i) (imap (fun i k => (i, k)) ids) [].

(** [map.get(k)!]: the row object the key refers to. *)
Definition Map_get_row {A : Type} (m : JSMap) (rows : list A) (k : string)
  : option A :=
  i ← Map_get m k; rows !! i.

(** ** Projected view-model records *)

Module ProcessedSalon.
Record t := mk {
  id : string;
  title : string;
  slug : string;
  website : option string;
  telephone : option string;
  address : option string;
  postal_code : option string;
  latitude : option string;
  longitude : option string;
  email : option string;
  opening_hours : option string;
  description : option string;
  service_product : option string;
  reviews : option string;
  average_star : option string;
  city_id : option string;
  city_name : option string;
  state_id : option string;
  state_name : option string;
  category_ids : list string;
  detail_keys : list string;
  detail_values : list string;
  amenity_ids : list string;
  payment_ids : list string;
  images : list string
}.
End ProcessedSalon.

Module ProcessedCity.
Record t := mk {
  id : string;
  city : string;
  slug : string;
  state_id : option string;
  state_name : option string;
  salon_ids : list string
}.
End ProcessedCity.

Module ProcessedState.
Record t := mk {
  id : string;
  state : string;
  slug : string;
  city_ids : list string;
  salon_ids : list string
}.
End ProcessedState.

Module ProcessedCategory.
Record t := mk {
  id : string;
  category : string;
  slug : string;
  salon_ids : list string
}.
End ProcessedCategory.

(** The own properties of the projected objects, as the object literals of
    the script list them, and property access on them. *)
Inductive JSValue :=
| JUndefined
| JString (s : string)
| JNumber (n : nat)
| JStrings (l : list string).

Definition js_opt (o : option string) : JSValue :=
  match o with Some s => JString s | None => JUndefined end.

Definition JSObject := list (string * JSValue).

Fixpoint get_prop (o : JSObject) (k : string) : JSValue :=
  match o with
  | [] => JUndefined
  | (k', v) :: o' => if bool_decide (k' = k) then v else get_prop o' k
  end.

Definition city_object (c : ProcessedCity.t) : JSObject :=
  [ ("id", JString (ProcessedCity.id c));
    ("city", JString (ProcessedCity.city c));
    ("slug", JString (ProcessedCity.slug c));
    ("state_id", js_opt (ProcessedCity.state_id c));
    ("state_name", js_opt (ProcessedCity.state_name c));
    ("salon_ids", JStrings (ProcessedCity.salon_ids c)) ].

Definition state_object (s : ProcessedState.t) : JSObject :=
  [ ("id", JString (ProcessedState.id s));
    ("state", JString (ProcessedState.state s));
    ("slug", JString (ProcessedState.slug s));
    ("city_ids", JStrings (ProcessedState.city_ids s));
    ("salon_ids", JStrings (ProcessedState.salon_ids s)) ].

Definition category_object (c : ProcessedCategory.t) : JSObject :=
  [ ("id", JString (ProcessedCategory.id c));
    ("category", JString (ProcessedCategory.category c));
    ("slug", JString (ProcessedCategory.slug c));
    ("salon_ids", JStrings (ProcessedCategory.salon_ids c)) ].

(** ** The tables held in memory and the projection written out *)

Record Tables := mkTables {
  beautySalons : list BeautySalon.t;
  cities : list City.t;
  states : list State.t;
  categories : list Category.t
}.

(** The rows that the counting passes mutate through the index maps. *)
Record Counted := mkCounted {
  counted_cities : list City.t;
  counted_states : list State.t;
  counted_categories : list Category.t
}.

Record Projection := mkProjection {
  salons_json : list ProcessedSalon.t;
  cities_json : list ProcessedCity.t;
  states_json : list ProcessedState.t;
  categories_json : list ProcessedCategory.t
}.

(** ** The pipeline of [generateHTML]

    [toLowerCase] and [trim] are the string built-ins of JavaScript and
    [slugify] is the function of the [slugify] package called with
    [{ lower: true }]; the pipeline is parametric in them.  A computation is
    in the [option] monad: [None] stands for a [TypeError] thrown on reading
    a property of [undefined]. *)

Section Pipeline.
Variables toLowerCase trim slugify : string -> string.

Definition citiesMap (cities : list City.t) : JSMap :=
  Map_of_ids (map City.id cities).
Definition statesMap (states : list State.t) : JSMap :=
  Map_of_ids (map State.id states).
Definition categoriesMap (categories : list Category.t) : JSMap :=
  Map_of_ids (map Category.id categories).

(** *** Add state names to cities *)

Definition addStateName (sm : JSMap) (states : list State.t) (city : City.t)
  : option City.t :=
  match City.state_id city with
  | Some sid =>
      if truthy (Some sid) && Map_has sm sid then
        state ← Map_get_row sm states sid;
        Some (City.set_state_name city (State.state state))
      else Some city
  | None => Some city
  end.

Definition addStateNames (sm : JSMap) (states : list State.t)
    (cities : list City.t) : option (list City.t) :=
  mapM (addStateName sm states) cities.

(** *** Add city and state ids to salons if missing *)

(** [for (const [id, city] of citiesMap.entries()) { if (...) { ...; break } }] *)
Fixpoint findCity (entries : JSMap) (cities : list City.t)
    (cityName : string) (salon : BeautySalon.t) : option BeautySalon.t :=
  match entries with
  | [] => Some salon
  | (id, i) :: rest =>
      city ← cities !! i;
      if bool_decide (toLowerCase (City.city city) = toLowerCase cityName)
      then Some (BeautySalon.set_city salon id (City.city city))
      else findCity rest cities cityName salon
  end.

Fixpoint findState (entries : JSMap) (states : list State.t)
    (stateName : string) (salon : BeautySalon.t) : option BeautySalon.t :=
  match entries with
  | [] => Some salon
  | (id, i) :: rest =>
      state ← states !! i;
      if bool_decide (toLowerCase (State.state state) = toLowerCase stateName)
      then Some (BeautySalon.set_state salon id (State.state state))
      else findState rest states stateName salon
  end.

Definition inferLinks (cm sm : JSMap) (cities : list City.t)
    (states : list State.t) (salon : BeautySalon.t) : option BeautySalon.t :=
  match BeautySalon.address salon with
  | Some address =>
      if truthy (Some address)
         && negb (truthy (BeautySalon.city_id salon))
         && negb (truthy (BeautySalon.state_id salon))
      then
        let addressParts := map trim (split_comma address) in
        if (3 <=? length addressParts)%nat then
          cityName ← addressParts !! (length addressParts - 3);
          stateName ← addressParts !! (length addressParts - 2);
          salon' ← findCity cm cities cityName salon;
          findState sm states stateName salon'
        else Some salon
      else Some salon
  | None => Some salon
  end.

Definition inferAllLinks (cm sm : JSMap) (cities : list City.t)
    (states : list State.t) (salons : list BeautySalon.t)
  : option (list BeautySalon.t) :=
  mapM (inferLinks cm sm cities states) salons.

(** *** Count salons per city, state and category *)

Definition countCity (cm : JSMap) (salon : BeautySalon.t)
    (cities : list City.t) : option (list City.t) :=
  match BeautySalon.city_id salon with
  | Some cid =>
      if truthy (Some cid) && Map_has cm cid then
        i ← Map_get cm cid;
        city ← cities !! i;
        Some (<[i := City.set_salon_count city
                        (or_zero (City.salon_count city) + 1)]> cities)
      else Some cities
  | None => Some cities
  end.

Definition countState (sm : JSMap) (salon : BeautySalon.t)
    (states : list State.t) : option (list State.t) :=
  match BeautySalon.state_id salon with
  | Some sid =>
      if truthy (Some sid) && Map_has sm sid then
        i ← Map_get sm sid;
        state ← states !! i;
        Some (<[i := State.set_salon_count state
                        (or_zero (State.salon_count state) + 1)]> states)
      else Some states
  | None => Some states
  end.

Definition countCategory (catm : JSMap) (categoryId : string)
    (categories : list Category.t) : option (list Category.t) :=
  if Map_has catm categoryId then
    i ← Map_get catm categoryId;
    category ← categories !! i;
    Some (<[i := Category.set_salon_count category
                    (or_zero (Category.salon_count category) + 1)]> categories)
  else Some categories.

(** [ids.forEach(categoryId => ...)] *)
Fixpoint countCategoryIds (catm : JSMap) (ids : list string)
    (categories : list Category.t) : option (list Category.t) :=
  match ids with
  | [] => Some categories
  | categoryId :: rest =>
      categories' ← countCategory catm categoryId categories;
      countCategoryIds catm rest categories'
  end.

Definition countCategories (catm : JSMap) (salon : BeautySalon.t)
    (categories : list Category.t) : option (list Category.t) :=
  match BeautySalon.category_ids salon with
  | Some ids =>
      if truthy (Some ids) then countCategoryIds catm (split_comma ids) categories
      else Some categories
  | None => Some categories
  end.

Definition countSalon (cm sm catm : JSMap) (salon : BeautySalon.t)
    (rows : Counted) : option Counted :=
  cities' ← countCity cm salon (counted_cities rows);
  states' ← countState sm salon (counted_states rows);
  categories' ← countCategories catm salon (counted_categories rows);
  Some (mkCounted cities' states' categories').

Fixpoint countSalons (cm sm catm : JSMap) (salons : list BeautySalon.t)
    (rows : Counted) : option Counted :=
  match salons with
  | [] => Some rows
  | salon :: rest =>
      rows' ← countSalon cm sm catm salon rows;
      countSalons cm sm catm rest rows'
  end.

(** *** Count cities per state *)

Definition countCityOfState (sm : JSMap) (city : City.t)
    (states : list State.t) : option (list State.t) :=
  match City.state_id city with
  | Some sid =>
      if truthy (Some sid) && Map_has sm sid then
        i ← Map_get sm sid;
        state ← states !! i;
        Some (<[i := State.set_city_count state
                        (or_zero (State.city_count state) + 1)]> states)
      else Some states
  | None => Some states
  end.

Fixpoint countCitiesPerState (sm : JSMap) (cities : list City.t)
    (states : list State.t) : option (list State.t) :=
  match cities with
  | [] => Some states
  | city :: rest =>
      states' ← countCityOfState sm city states;
      countCitiesPerState sm rest states'
  end.

(** *** Process data for the frontend *)

(** [field ? field.split(',') : []] *)
Definition splitField (field : option string) : list string :=
  if truthy field then
    match field with Some s => split_comma s | None => [] end
  else [].

(** [name ? slugify(name, { lower: true }) : fallback] *)
Definition slugOr (name : option string) (fallback : string) : string :=
  if truthy name then
    match name with Some n => slugify n | None => fallback end
  else fallback.

Definition processSalon (salon : BeautySalon.t) : ProcessedSalon.t :=
  let citySlug := slugOr (BeautySalon.city_name salon) "unknown-city" in
  let stateSlug := slugOr (BeautySalon.state_name salon) "unknown-state" in
  let slug :=
    slugify (citySlug ++ "-" ++ stateSlug ++ "-" ++ BeautySalon.title salon
             ++ "-" ++ BeautySalon.id salon) in
  {| ProcessedSalon.id := BeautySalon.id salon;
     ProcessedSalon.title := BeautySalon.title salon;
     ProcessedSalon.slug := slug;
     ProcessedSalon.website := BeautySalon.website salon;
     ProcessedSalon.telephone := BeautySalon.telephone salon;
     ProcessedSalon.address := BeautySalon.address salon;
     ProcessedSalon.postal_code := BeautySalon.postal_code salon;
     ProcessedSalon.latitude := BeautySalon.latitude salon;
     ProcessedSalon.longitude := BeautySalon.longitude salon;
     ProcessedSalon.email := BeautySalon.email salon;
     ProcessedSalon.opening_hours := BeautySalon.opening_hours salon;
     ProcessedSalon.description := BeautySalon.description salon;
     ProcessedSalon.service_product := BeautySalon.service_product salon;
     ProcessedSalon.reviews := BeautySalon.reviews salon;
     ProcessedSalon.average_star := BeautySalon.average_star salon;
     ProcessedSalon.city_id := BeautySalon.city_id salon;
     ProcessedSalon.city_name := BeautySalon.city_name salon;
     ProcessedSalon.state_id := BeautySalon.state_id salon;
     ProcessedSalon.state_name := BeautySalon.state_name salon;
     ProcessedSalon.category_ids := splitField (BeautySalon.category_ids salon);
     ProcessedSalon.detail_keys := splitField (BeautySalon.detail_keys salon);
     ProcessedSalon.detail_values := splitField (BeautySalon.detail_values salon);
     ProcessedSalon.amenity_ids := splitField (BeautySalon.amenity_ids salon);
     ProcessedSalon.payment_ids := splitField (BeautySalon.payment_ids salon);
     ProcessedSalon.images := splitField (BeautySalon.images salon) |}.

Definition processedSalons (salons : list BeautySalon.t)
  : list ProcessedSalon.t :=
  map processSalon salons.

(** [name && name.toLowerCase() === other.toLowerCase()] *)
Definition named_like (name : option string) (other : string) : bool :=
  truthy name &&
  match name with
  | Some n => bool_decide (toLowerCase n = toLowerCase other)
  | None => false
  end.

(** [ids.includes(x)] for an optional string [x]. *)
Definition includes (ids : list string) (x : option string) : bool :=
  match x with
  | Some v => bool_decide (v ∈ ids)
  | None => false
  end.

Definition inCity (city : City.t) (salon : ProcessedSalon.t) : bool :=
  if set_to (ProcessedSalon.city_id salon) (City.id city) then true
  else if named_like (ProcessedSalon.city_name salon) (City.city city) then true
  else false.

Definition processCity (salons : list ProcessedSalon.t) (city : City.t)
  : ProcessedCity.t :=
  let slug := slugify (City.city city ++ "-" ++ interpolate (City.state_id city)) in
  let salonIdsForCity :=
    map ProcessedSalon.id (List.filter (inCity city) salons) in
  {| ProcessedCity.id := City.id city;
     ProcessedCity.city := City.city city;
     ProcessedCity.slug := slug;
     ProcessedCity.state_id := City.state_id city;
     ProcessedCity.state_name := City.state_name city;
     ProcessedCity.salon_ids := salonIdsForCity |}.

Definition processedCities (salons : list ProcessedSalon.t)
    (cities : list City.t) : list ProcessedCity.t :=
  map (processCity salons) cities.

Definition cityOfState (state : State.t) (city : ProcessedCity.t) : bool :=
  bool_decide (ProcessedCity.state_id city = Some (State.id state)).

Definition cityIdsForState (cities : list ProcessedCity.t) (state : State.t)
  : list string :=
  map ProcessedCity.id (List.filter (cityOfState state) cities).

Definition inState (cityIds : list string) (state : State.t)
    (salon : ProcessedSalon.t) : bool :=
  if set_to (ProcessedSalon.state_id salon) (State.id state) then true
  else if named_like (ProcessedSalon.state_name salon) (State.state state)
  then true
  else if truthy (ProcessedSalon.city_id salon)
          && includes cityIds (ProcessedSalon.city_id salon)
  then true
  else false.

Definition processState (salons : list ProcessedSalon.t)
    (cities : list ProcessedCity.t) (state : State.t) : ProcessedState.t :=
  let slug := slugify (State.state state) in
  let cityIds := cityIdsForState cities state in
  let salonIdsForState :=
    map ProcessedSalon.id (List.filter (inState cityIds state) salons) in
  {| ProcessedState.id := State.id state;
     ProcessedState.state := State.state state;
     ProcessedState.slug := slug;
     ProcessedState.city_ids := cityIds;
     ProcessedState.salon_ids := salonIdsForState |}.

Definition processedStates (salons : list ProcessedSalon.t)
    (cities : list ProcessedCity.t) (states : list State.t)
  : list ProcessedState.t :=
  map (processState salons cities) states.

Definition inCategory (category : Category.t) (salon : ProcessedSalon.t)
  : bool :=
  includes (ProcessedSalon.category_ids salon) (Some (Category.id category)).

Definition processCategory (salons : list ProcessedSalon.t)
    (category : Category.t) : ProcessedCategory.t :=
  {| ProcessedCategory.id := Category.id category;
     ProcessedCategory.category := Category.category category;
     ProcessedCategory.slug := slugify (Category.category category);
     ProcessedCategory.salon_ids :=
       map ProcessedSalon.id (List.filter (inCategory category) salons) |}.

Definition processedCategories (salons : list ProcessedSalon.t)
    (categories : list Category.t) : list ProcessedCategory.t :=
  map (processCategory salons) categories.

(** *** The whole data pass *)

(** Backfill and inference, given the index maps. *)
Definition annotateWith (cm sm : JSMap) (T : Tables) : option Tables :=
  cities1 ← addStateNames sm (states T) (cities T);
  salons1 ← inferAllLinks cm sm cities1 (states T) (beautySalons T);
  Some (mkTables salons1 cities1 (states T) (categories T)).

(** The two counting passes, given the index maps. *)
Definition aggregateWith (cm sm catm : JSMap) (T : Tables) : option Tables :=
  rows ← countSalons cm sm catm (beautySalons T)
            (mkCounted (cities T) (states T) (categories T));
  states2 ← countCitiesPerState sm (counted_cities rows) (counted_states rows);
  Some (mkTables (beautySalons T) (counted_cities rows) states2
                 (counted_categories rows)).

(** Backfill, inference and the counting passes in the order in which
    [generateHTML] runs them; the index maps are built once, from the rows
    as loaded. *)
Definition resolve (T : Tables) : option Tables :=
  let cm := citiesMap (cities T) in
  let sm := statesMap (states T) in
  let catm := categoriesMap (categories T) in
  T1 ← annotateWith cm sm T;
  aggregateWith cm sm catm T1.

(** Backfill and inference alone, as a run of their own. *)
Definition annotate (T : Tables) : option Tables :=
  annotateWith (citiesMap (cities T)) (statesMap (states T)) T.

Definition project (T : Tables) : Projection :=
  let salons := processedSalons (beautySalons T) in
  let pcities := processedCities salons (cities T) in
  mkProjection salons pcities
    (processedStates salons pcities (states T))
    (processedCategories salons (categories T)).

Definition generateHTML (T : Tables) : option (Tables * Projection) :=
  T' ← resolve T;
  Some (T', project T').
End Pipeline.

(** ** The company sitemaps of [generateSitemaps] *)

Definition nl : string := String (ascii_of_nat 10) EmptyString.
Definition dq : string := String (ascii_of_nat 34) EmptyString.

Definition baseUrl : string := "https://electrolysisdirectory.com".

(** [arr.slice(from, to)] *)
Definition slice {A : Type} (arr : list A) (from to : nat) : list A :=
  take (to - from) (drop from arr).

Definition urlEntry (salon : ProcessedSalon.t) : string :=
  "  <url>" ++ nl ++
  "    <loc>" ++ baseUrl ++ "/companies/" ++ ProcessedSalon.slug salon
    ++ "/</loc>" ++ nl ++
  "    <changefreq>monthly</changefreq>" ++ nl ++
  "    <priority>0.8</priority>" ++ nl ++
  "  </url>" ++ nl.

Definition companySitemapXml (chunk : list ProcessedSalon.t) : string :=
  fold_left (fun xml salon => xml ++ urlEntry salon) chunk
    ("<?xml version=" ++ dq ++ "1.0" ++ dq ++ " encoding=" ++ dq ++ "UTF-8"
       ++ dq ++ "?>" ++ nl ++
     "<urlset xmlns=" ++ dq ++ "http://www.sitemaps.org/schemas/sitemap/0.9"
       ++ dq ++ ">" ++ nl)
  ++ "</urlset>".

(** The loop [for (let i = 0; i < salons.length; i += 200)]: the files
    written, each with its name and content, in the order of writing. *)
Fixpoint companySitemapsFrom (fuel i : nat) (salons : list ProcessedSalon.t)
  : list (string * string) :=
  match fuel with
  | 0 => []
  | S fuel' =>
      if (i <? length salons)%nat then
        let chunk := slice salons i (i + 200) in
        let sitemapIndex := i / 200 + 1 in
        let filename :=
          "companies-sitemap" ++ string_of_nat sitemapIndex ++ ".xml" in
        (filename, companySitemapXml chunk)
          :: companySitemapsFrom fuel' (i + 200) salons
      else []
  end.

(** The loop runs at most once per salon. *)
Definition companySitemaps (salons : list ProcessedSalon.t)
  : list (string * string) :=
  companySitemapsFrom (length salons) 0 salons.

(** ** The other sitemap files of [generateSitemaps] *)

Definition xmlHeader : string :=
  "<?xml version=" ++ dq ++ "1.0" ++ dq ++ " encoding=" ++ dq ++ "UTF-8"
    ++ dq ++ "?>" ++ nl.

Definition cityUrlEntry (city : ProcessedCity.t) : string :=
  "  <url>" ++ nl ++
  "    <loc>" ++ baseUrl ++ "/cities/" ++ ProcessedCity.slug city
    ++ "/</loc>" ++ nl ++
  "    <changefreq>weekly</changefreq>" ++ nl ++
  "    <priority>0.7</priority>" ++ nl ++
  "  </url>" ++ nl.

Definition citySitemapXml (cities : list ProcessedCity.t) : string :=
  fold_left (fun xml city => xml ++ cityUrlEntry city) cities
    (xmlHeader ++
     "<urlset xmlns=" ++ dq ++ "http://www.sitemaps.org/schemas/sitemap/0.9"
       ++ dq ++ ">" ++ nl)
  ++ "</urlset>".

Definition stateUrlEntry (state : ProcessedState.t) : string :=
  "  <url>" ++ nl ++
  "    <loc>" ++ baseUrl ++ "/states/" ++ ProcessedState.slug state
    ++ "/</loc>" ++ nl ++
  "    <changefreq>weekly</changefreq>" ++ nl ++
  "    <priority>0.7</priority>" ++ nl ++
  "  </url>" ++ nl.

Definition stateSitemapXml (states : list ProcessedState.t) : string :=
  fold_left (fun xml state => xml ++ stateUrlEntry state) states
    (xmlHeader ++
     "<urlset xmlns=" ++ dq ++ "http://www.sitemaps.org/schemas/sitemap/0.9"
       ++ dq ++ ">" ++ nl)
  ++ "</urlset>".

(** One [<sitemap>] element of the sitemap index, for the file [sitemap]
    and the timestamp [lastmod]. *)
Definition sitemapIndexEntry (lastmod sitemap : string) : string :=
  "  <sitemap>" ++ nl ++
  "    <loc>" ++ baseUrl ++ "/sitemaps/" ++ sitemap ++ "</loc>" ++ nl ++
  "    <lastmod>" ++ lastmod ++ "</lastmod>" ++ nl ++
  "  </sitemap>" ++ nl.

(** The sitemap index.  [now k] is the text that the [k]-th evaluation
    (counting from 0) of [new Date().toISOString()] yields; the loop over
    the company sitemaps threads the text built so far and the number of
    evaluations done. *)
Definition sitemapIndexXml (now : nat -> string) (companySitemaps : list string)
  : string :=
  let start :=
    xmlHeader ++
    "<sitemapindex xmlns=" ++ dq
      ++ "http://www.sitemaps.org/schemas/sitemap/0.9" ++ dq ++ ">" ++ nl in
  let '(xml, k) :=
    fold_left (fun '(xml, k) sitemap =>
                 (xml ++ sitemapIndexEntry (now k) sitemap, S k))
      companySitemaps (start, 0) in
  xml ++ sitemapIndexEntry (now k) "cities-sitemap.xml"
      ++ sitemapIndexEntry (now (S k)) "states-sitemap.xml"
      ++ "</sitemapindex>".

(** The XML files that [generateSitemaps] writes, in the order of writing:
    each with its path, as the segments given to [path.join], and its
    content. *)
Definition sitemapXmlWrites (now : nat -> string) (outputDir : string)
    (salons : list ProcessedSalon.t) (cities : list ProcessedCity.t)
    (states : list ProcessedState.t) : list (list string * string) :=
  let sitemapsDir := [ outputDir; "sitemaps" ] in
  let companyFiles := companySitemaps salons in
  (map (fun '(filename, xml) => ((sitemapsDir ++ [ filename ])%list, xml))
     companyFiles
   ++ [ ((sitemapsDir ++ [ "cities-sitemap.xml" ])%list, citySitemapXml cities);
        ((sitemapsDir ++ [ "states-sitemap.xml" ])%list, stateSitemapXml states);
        ([ outputDir; "sitemap.xml" ],
         sitemapIndexXml now (map fst companyFiles)) ])%list.

(** ** The lists behind the city and state pages *)

Section Pages.
Variable toLowerCase : string -> string.

(** The salons listed on the page of a projected city. *)
Definition citySalons (salons : list ProcessedSalon.t) (city : ProcessedCity.t)
  : list ProcessedSalon.t :=
  List.filter
    (fun salon =>
       bool_decide (ProcessedSalon.city_id salon = Some (ProcessedCity.id city))
       || named_like toLowerCase (ProcessedSalon.city_name salon)
            (ProcessedCity.city city))
    salons.

(** The cities listed on the page of a projected state. *)
Definition stateCities (cities : list ProcessedCity.t) (state : ProcessedState.t)
  : list ProcessedCity.t :=
  List.filter
    (fun city =>
       bool_decide (ProcessedCity.state_id city = Some (ProcessedState.id state)))
    cities.

(** The salons listed on the page of a projected state. *)
Definition stateSalons (salons : list ProcessedSalon.t)
    (cities : list ProcessedCity.t) (state : ProcessedState.t)
  : list ProcessedSalon.t :=
  List.filter
    (fun salon =>
       bool_decide (ProcessedSalon.state_id salon = Some (ProcessedState.id state))
       || named_like toLowerCase (ProcessedSalon.state_name salon)
            (ProcessedState.state state)
       || (truthy (ProcessedSalon.city_id salon)
           && existsb
                (fun city =>
                   bool_decide (Some (ProcessedCity.id city)
                                = ProcessedSalon.city_id salon))
                (stateCities cities state)))
    salons.

(** The number of providers shown for a city on a state page. *)
Definition citySalonsCount (salons : list ProcessedSalon.t)
    (city : ProcessedCity.t) : nat :=
  length (citySalons salons city).
End Pages.

(** A JavaScript string is a sequence of UTF-16 code units: [length] counts
    them and [substring] cuts between them, also between the two halves of
    a surrogate pair.  Where a property depends on lengths, a text is kept
    as the list of its code units. *)
Definition utf16 : Type := list N.

(** The code units of a literal of the script written in ASCII. *)
Definition code_units (literal : string) : utf16 :=
  map N_of_ascii (list_ascii_of_string literal).

(** The text shown for a salon in a provider card of a city page:
    [description.substring(0, 150)], with three dots after it when the
    description is longer, or a stock sentence when there is none. *)
Definition descriptionPreview (description : option utf16) : utf16 :=
  match description with
  | Some ((_ :: _) as d) =>
      (take 150 d
       ++ (if (150 <? length d)%nat then code_units "..." else []))%list
  | Some [] | None =>
      code_units "Professional electrolysis services for permanent hair removal."
  end.

(** [businessName.replace(/'/g, ...)] of [generateHTMLFooter]: a backslash
    is put before every apostrophe. *)
Definition apostrophe : ascii := ascii_of_nat 39.
Definition backslash : ascii := ascii_of_nat 92.

Fixpoint escapeQuotes (s : string) : string :=
  match s with
  | EmptyString => EmptyString
  | String c s' =>
      if Ascii.eqb c apostrophe
      then String backslash (String apostrophe (escapeQuotes s'))
      else String c (escapeQuotes s')
  end.

(** ** Sample tables *)

Module Fixture.
(** A stand-in for [slugify] in sample runs; nothing stated about a sample
    run depends on the text of a slug. *)
Definition slug (s : string) : string := ascii_toLowerCase s.

(** A salon row with the given link and category columns and nothing else. *)
Definition salon (id title : string)
    (address city_id city_name state_id state_name category_ids : option string)
  : BeautySalon.t :=
  BeautySalon.mk id title None None address None None None None None None
    None None None city_id city_name state_id state_name category_ids
    None None None None None.

Definition springfield : City.t :=
  City.mk "c1" "Springfield" (Some "s1") None None.
Definition illinois : State.t := State.mk "s1" "Illinois" None None.
Definition electrolysis : Category.t := Category.mk "k1" "Electrolysis" None.

Definition salonA : BeautySalon.t :=
  salon "a" "Salon A" None (Some "c1") (Some "Springfield")
    (Some "s1") (Some "Illinois") (Some "k1").
Definition salonB : BeautySalon.t :=
  salon "b" "Salon B" (Some "123 Main St, Springfield, Illinois, USA")
    None None None None (Some "k1").

Definition tables : Tables :=
  mkTables [ salonA; salonB ] [ springfield ] [ illinois ] [ electrolysis ].



(** A state row with an empty id, a state without salons, a salon whose
    [state_id] cell is empty, and two city rows loaded with one id together
    with a salon of that city. *)
Definition nameless : State.t := State.mk "" "Xanadu" None None.
Definition yukon : State.t := State.mk "s2" "Yukon" None None.
Definition salonD : BeautySalon.t :=
  salon "d" "Salon D" None None None (Some "") None None.
Definition shelbyville : City.t := City.mk "c7" "Shelbyville" None None None.
Definition shelbyville_again : City.t :=
  City.mk "c7" "Shelbyville (new)" None None None.
Definition salonF : BeautySalon.t :=
  salon "f" "Salon F" None (Some "c7") None None None None.

Definition tables_odd : Tables :=
  mkTables [ salonD; salonF ] [ shelbyville; shelbyville_again ]
    [ nameless; yukon ] [].

(** A salon whose category list has a blank after the comma. *)
Definition salonE : BeautySalon.t :=
  salon "e" "Salon E" None None None None None (Some "a, b").

(** 450 projected salons, numbered from 1. *)
Definition numbered (n : nat) : BeautySalon.t :=
  salon (string_of_nat n) "Salon" None None None None None None.
Definition salons450 : list ProcessedSalon.t :=
  map (processSalon slug) (map numbered (seq 1 450)).
End Fixture.

(** ** Predicates used to state the properties *)

(** [picks P l out]: [out] keeps, in order and once each, exactly the
    elements of [l] that satisfy [P]. *)
Inductive picks {A : Type} (P : A -> Prop) : list A -> list A -> Prop :=
| picks_nil : picks P [] []
| picks_keep x l out : P x -> picks P l out -> picks P (x :: l) (x :: out)
| picks_skip x l out : ~ P x -> picks P l out -> picks P (x :: l) out.

(** [first_entry P m k i]: [(k, i)] is the first entry of the map [m], in
    insertion order, that satisfies [P]. *)
Definition first_entry (P : string * nat -> Prop) (m : JSMap)
    (k : string) (i : nat) : Prop :=
  exists before after,
    m = (before ++ (k, i) :: after)%list /\ P (k, i) /\ Forall (fun e => ~ P e) before.

(** The row behind a map entry bears a name that equals [name] up to case. *)
Definition cityNamed (lower : string -> string) (cities : list City.t)
    (name : string) (e : string * nat) : Prop :=
  exists city, cities !! e.2 = Some city /\
               lower (City.city city) = lower name.

Definition stateNamed (lower : string -> string) (states : list State.t)
    (name : string) (e : string * nat) : Prop :=
  exists state, states !! e.2 = Some state /\
                lower (State.state state) = lower name.

(** The city link of [salon'] is the one the search for [cityName] yields
    on [salon]: the id and name of the first city of the index so named, or
    the link [salon] had when no city is so named. *)
Definition city_linked (lower : string -> string) (cm : JSMap)
    (cities : list City.t) (cityName : string)
    (salon salon' : BeautySalon.t) : Prop :=
  (exists k i city,
      first_entry (cityNamed lower cities cityName) cm k i /\
      cities !! i = Some city /\ City.id city = k /\
      BeautySalon.city_id salon' = Some k /\
      BeautySalon.city_name salon' = Some (City.city city))
  \/ (Forall (fun e => ~ cityNamed lower cities cityName e) cm /\
      BeautySalon.city_id salon' = BeautySalon.city_id salon /\
      BeautySalon.city_name salon' = BeautySalon.city_name salon).

Definition state_linked (lower : string -> string) (sm : JSMap)
    (states : list State.t) (stateName : string)
    (salon salon' : BeautySalon.t) : Prop :=
  (exists k i state,
      first_entry (stateNamed lower states stateName) sm k i /\
      states !! i = Some state /\ State.id state = k /\
      BeautySalon.state_id salon' = Some k /\
      BeautySalon.state_name salon' = Some (State.state state))
  \/ (Forall (fun e => ~ stateNamed lower states stateName e) sm /\
      BeautySalon.state_id salon' = BeautySalon.state_id salon /\
      BeautySalon.state_name salon' = BeautySalon.state_name salon).

(** What inference makes of a salon with address [address]: with fewer than
    three trimmed segments the salon is left as it is; otherwise the
    third-from-last and second-from-last segments are searched for, each on
    its own. *)
Definition links_inferred (lower trim : string -> string) (cm sm : JSMap)
    (cities : list City.t) (states : list State.t) (address : string)
    (salon salon' : BeautySalon.t) : Prop :=
  (length (map trim (split_comma address)) < 3 -> salon' = salon) /\
  (3 <= length (map trim (split_comma address)) ->
   exists cityName stateName,
     map trim (split_comma address)
       !! (length (map trim (split_comma address)) - 3) = Some cityName /\
     map trim (split_comma address)
       !! (length (map trim (split_comma address)) - 2) = Some stateName /\
     city_linked lower cm cities cityName salon salon' /\
     state_linked lower sm states stateName salon salon').

(** What [splitField] yields for a field. *)
Definition field_split (field : option string) (segs : list string) : Prop :=
  (field = None \/ field = Some "" -> segs = []) /\
  (field = Some "a,b,c" -> segs = [ "a"; "b"; "c" ]) /\
  (forall s, field = Some s -> s <> "" ->
     segs <> [] /\ join_comma segs = s /\
     Forall (fun seg => has_char "," seg = false) segs).

(** The number of chunks of 200 that [n] entries fill, i.e. the ceiling of
    [n / 200], and the [k]-th chunk (counting from 0) of a list. *)
Definition chunk_count (n : nat) : nat := (n + 199) / 200.

Definition chunk {A : Type} (l : list A) (k : nat) : list A :=
  take 200 (drop (200 * k) l).

(** The [k]-th company sitemap file (counting from 0) as it should be. *)
Definition sitemapFile (salons : list ProcessedSalon.t) (k : nat)
  : string * string :=
  ("companies-sitemap" ++ string_of_nat (k + 1) ++ ".xml",
   companySitemapXml (chunk salons k)).

(** The number of occurrences of [k] in a list of strings. *)
Definition occurrences (k : string) (l : list string) : nat :=
  length (List.filter (fun x => bool_decide (x = k)) l).

(** The key under which a row is counted for an optional property: the
    property when it is truthy, none otherwise. *)
Definition set_keys (o : option string) : list string :=
  if truthy o then match o with Some v => [ v ] | None => [] end else [].

(** The four counting steps share one shape: look the key up in an index
    map and add one to a counter of the row found there.  [bump] is that
    step for rows with id [key] and counter [get]/[set], [bumps] the step
    repeated over the keys [ks], and [bumped m ks i r] the row that [bumps]
    leaves at position [i] in place of [r]. *)
Section Counter.
Context {A : Type}.
Variables (key : A -> string) (get : A -> option nat) (set : A -> nat -> A).

Definition bump (m : JSMap) (k : string) (rows : list A) : option (list A) :=
  if Map_has m k then
    i ← Map_get m k;
    r ← rows !! i;
    Some (<[i := set r (or_zero (get r) + 1)]> rows)
  else Some rows.

Fixpoint bumps (m : JSMap) (ks : list string) (rows : list A)
  : option (list A) :=
  match ks with
  | [] => Some rows
  | k :: ks' => rows' ← bump m k rows; bumps m ks' rows'
  end.

Definition hits (m : JSMap) (ks : list string) (i : nat) (r : A) : nat :=
  if bool_decide (Map_get m (key r) = Some i) then occurrences (key r) ks
  else 0.

Definition bumped (m : JSMap) (ks : list string) (i : nat) (r : A) : A :=
  match hits m ks i r with
  | 0 => r
  | S n => set r (or_zero (get r) + S n)
  end.
End Counter.

(** The keys counted by the aggregation passes, in the order of counting. *)
Definition cityKeys (salons : list BeautySalon.t) : list string :=
  flat_map (fun salon => set_keys (BeautySalon.city_id salon)) salons.
Definition stateKeys (salons : list BeautySalon.t) : list string :=
  flat_map (fun salon => set_keys (BeautySalon.state_id salon)) salons.
Definition categoryKeys (salons : list BeautySalon.t) : list string :=
  flat_map (fun salon => splitField (BeautySalon.category_ids salon)) salons.
Definition cityStateKeys (cities : list City.t) : list string :=
  flat_map (fun city => set_keys (City.state_id city)) cities.

(** An optional property is set to [v]: it is present, non-empty and [v]. *)
Definition is_set (o : option string) (v : string) : Prop :=
  o = Some v /\ v <> "".

(** Membership of a projected city and of a projected salon in a state. *)
Definition city_of_state (state : State.t) (city : ProcessedCity.t) : Prop :=
  ProcessedCity.state_id city = Some (State.id state).

Definition salon_of_state (lower : string -> string) (cityIds : list string)
    (state : State.t) (salon : ProcessedSalon.t) : Prop :=
  is_set (ProcessedSalon.state_id salon) (State.id state)
  \/ (exists n, is_set (ProcessedSalon.state_name salon) n /\
                lower n = lower (State.state state))
  \/ (exists c, is_set (ProcessedSalon.city_id salon) c /\ c ∈ cityIds).

(** What the backfill makes of a city: [city'] is [city] with its
    [state_name] filled from the state index where the [state_id] is
    non-empty and indexed, and left as it was otherwise. *)
Definition state_name_filled (states : list State.t) (city city' : City.t)
  : Prop :=
  City.id city' = City.id city /\
  City.state_id city' = City.state_id city /\
  (forall sid,
     City.state_id city = Some sid -> sid <> "" ->
     Map_has (statesMap states) sid = true ->
     exists state,
       Map_get_row (statesMap states) states sid = Some state /\
       state ∈ states /\ State.id state = sid /\
       City.state_name city' = Some (State.state state)) /\
  (City.state_id city = None \/ City.state_id city = Some "" \/
   (exists sid, City.state_id city = Some sid /\
                Map_has (statesMap states) sid = false) ->
   City.state_name city' = City.state_name city /\
   (City.state_name city = None -> City.state_name city' = None)).

(** The value a counter holds after [n] increments of an unset counter. *)
Definition tally (n : nat) : option nat :=
  match n with 0 => None | S _ => Some n end.

(** Every entry of an index map refers to a row with the entry's key as id. *)
Definition refs_ok (m : JSMap) (ids : list string) : Prop :=
  forall k i, (k, i) ∈ m -> ids !! i = Some k.

(** The counters of the tables [T'] hold the aggregated counts over the
    salons and cities of [T'], for the index maps built from [T].  A row is
    counted for when its index map holds it (for rows loaded with one id,
    the last of them); a counter that was never incremented is unset. *)
Definition counts_aggregated (T T' : Tables) : Prop :=
  (forall i city, cities T' !! i = Some city ->
     (Map_get (citiesMap (cities T)) (City.id city) = Some i ->
      City.salon_count city =
      tally (length (List.filter
                         (fun salon => set_to (BeautySalon.city_id salon)
                                              (City.id city))
                         (beautySalons T')))) /\
     (Map_get (citiesMap (cities T)) (City.id city) <> Some i ->
      City.salon_count city = None)) /\
  (forall i state, states T' !! i = Some state ->
     (Map_get (statesMap (states T)) (State.id state) = Some i ->
      State.salon_count state =
      tally (length (List.filter
                         (fun salon => set_to (BeautySalon.state_id salon)
                                              (State.id state))
                         (beautySalons T'))) /\
      State.city_count state =
      tally (length (List.filter
                         (fun city => set_to (City.state_id city)
                                             (State.id state))
                         (cities T')))) /\
     (Map_get (statesMap (states T)) (State.id state) <> Some i ->
      State.salon_count state = None /\ State.city_count state = None)) /\
  (forall i category, categories T' !! i = Some category ->
     (Map_get (categoriesMap (categories T)) (Category.id category) = Some i ->
      Category.salon_count category =
      tally (occurrences (Category.id category)
                 (categoryKeys (beautySalons T')))) /\
     (Map_get (categoriesMap (categories T)) (Category.id category) <> Some i ->
      Category.salon_count category = None)) /\
  map City.id (cities T') = map City.id (cities T) /\
  map State.id (states T') = map State.id (states T) /\
  map Category.id (categories T') = map Category.id (categories T).

(** The ids of a table in the order of their first occurrence. *)
Fixpoint first_occurrences (ids : list string) : list string :=
  match ids with
  | [] => []
  | k :: rest =>
      k :: List.filter (fun x => negb (bool_decide (x = k)))
             (first_occurrences rest)
  end.

(** The twenty fields of a salon other than its four link fields, each read
    off the row, with the link fields left out: two salons agree on every
    field but [city_id], [city_name], [state_id] and [state_name] exactly
    when their [unlinked] versions are equal. *)
Definition unlinked (salon : BeautySalon.t) : BeautySalon.t :=
  BeautySalon.mk
    (BeautySalon.id salon) (BeautySalon.title salon)
    (BeautySalon.website salon) (BeautySalon.telephone salon)
    (BeautySalon.address salon) (BeautySalon.postal_code salon)
    (BeautySalon.latitude salon) (BeautySalon.longitude salon)
    (BeautySalon.email salon) (BeautySalon.opening_hours salon)
    (BeautySalon.description salon) (BeautySalon.service_product salon)
    (BeautySalon.reviews salon) (BeautySalon.average_star salon)
    None None None None
    (BeautySalon.category_ids salon) (BeautySalon.detail_keys salon)
    (BeautySalon.detail_values salon) (BeautySalon.amenity_ids salon)
    (BeautySalon.payment_ids salon) (BeautySalon.images salon).

(** The trigger condition of the inference. *)
Definition triggered (salon : BeautySalon.t) : bool :=
  truthy (BeautySalon.address salon)
  && negb (truthy (BeautySalon.city_id salon))
  && negb (truthy (BeautySalon.state_id salon)).

(** Rows with their counters blanked. *)
Definition uncounted_city (city : City.t) : City.t :=
  City.mk (City.id city) (City.city city) (City.state_id city)
    (City.state_name city) None.
Definition uncounted_state (state : State.t) : State.t :=
  State.mk (State.id state) (State.state state) None None.
Definition uncounted_category (category : Category.t) : Category.t :=
  Category.mk (Category.id category) (Category.category category) None.

(** The city link of [salon'] was either already on [salon], or is the id
    and name of a city of the table whose name equals, up to case, a trimmed
    segment of the salon's address; likewise for the state link. *)
Definition city_link_sound (lower trim : string -> string)
    (cities : list City.t) (salon salon' : BeautySalon.t) : Prop :=
  (BeautySalon.city_id salon' = BeautySalon.city_id salon /\
   BeautySalon.city_name salon' = BeautySalon.city_name salon)
  \/ (exists address seg city,
        BeautySalon.address salon = Some address /\
        seg ∈ map trim (split_comma address) /\
        city ∈ cities /\ lower (City.city city) = lower seg /\
        BeautySalon.city_id salon' = Some (City.id city) /\
        BeautySalon.city_name salon' = Some (City.city city)).

Definition state_link_sound (lower trim : string -> string)
    (states : list State.t) (salon salon' : BeautySalon.t) : Prop :=
  (BeautySalon.state_id salon' = BeautySalon.state_id salon /\
   BeautySalon.state_name salon' = BeautySalon.state_name salon)
  \/ (exists address seg state,
        BeautySalon.address salon = Some address /\
        seg ∈ map trim (split_comma address) /\
        state ∈ states /\ lower (State.state state) = lower seg /\
        BeautySalon.state_id salon' = Some (State.id state) /\
        BeautySalon.state_name salon' = Some (State.state state)).

(** An optional id is non-empty and among the ids of a table. *)
Definition links_to (ids : list string) (o : option string) : bool :=
  truthy o && match o with Some k => bool_decide (k ∈ ids) | None => false end.

(** The sum of a counter over a table, an unset counter counting as 0. *)
Definition total {A : Type} (get : A -> option nat) (rows : list A) : nat :=
  sum_list (map (fun r => or_zero (get r)) rows).

(** Membership of a projected salon in a city and in a category. *)
Definition salon_of_city (lower : string -> string) (city : City.t)
    (salon : ProcessedSalon.t) : Prop :=
  is_set (ProcessedSalon.city_id salon) (City.id city)
  \/ (exists n, is_set (ProcessedSalon.city_name salon) n /\
                lower n = lower (City.city city)).

Definition salon_of_category (category : Category.t)
    (salon : ProcessedSalon.t) : Prop :=
  Category.id category ∈ ProcessedSalon.category_ids salon.

(** The texts of a list one after the other. *)
Definition join_strings (l : list string) : string :=
  fold_right String.append EmptyString l.

(** The inverse of [escapeQuotes]: a backslash that stands right before an
    apostrophe is dropped. *)
Fixpoint unescapeQuotes (s : string) : string :=
  match s with
  | EmptyString => EmptyString
  | String c s' =>
      match s' with
      | String c' s'' =>
          if Ascii.eqb c backslash && Ascii.eqb c' apostrophe
          then String apostrophe (unescapeQuotes s'')
          else String c (unescapeQuotes s')
      | EmptyString => String c EmptyString
      end
  end.

(** The number of times a character stands in a text. *)
Fixpoint count_char (c : ascii) (s : string) : nat :=
  match s with
  | EmptyString => 0
  | String c' s' => (if Ascii.eqb c' c then 1 else 0) + count_char c s'
  end.

(** The lines of a text: the pieces between its line feeds. *)
Definition line_feed : ascii := ascii_of_nat 10.

Fixpoint text_lines (s : string) : list string :=
  match s with
  | EmptyString => [ "" ]
  | String c s' =>
      if Ascii.eqb c line_feed then "" :: text_lines s'
      else match text_lines s' with
           | line :: rest => String c line :: rest
           | [] => [ String c "" ]
           end
  end.

(** The address of the page of a projected salon. *)
Definition company_loc (salon : ProcessedSalon.t) : string :=
  "https://electrolysisdirectory.com/companies/" ++ ProcessedSalon.slug salon
    ++ "/".

(** The five lines of one [<url>] element of a sitemap, and the lines of a
    sitemap that holds the given elements, one after the other. *)
Definition url_lines (loc changefreq priority : string) : list string :=
  [ "  <url>";
    "    <loc>" ++ loc ++ "</loc>";
    "    <changefreq>" ++ changefreq ++ "</changefreq>";
    "    <priority>" ++ priority ++ "</priority>";
    "  </url>" ].

Definition xml_declaration : string :=
  "<?xml version=" ++ dq ++ "1.0" ++ dq ++ " encoding=" ++ dq ++ "UTF-8"
    ++ dq ++ "?>".

Definition urlset_tag : string :=
  "<urlset xmlns=" ++ dq ++ "http://www.sitemaps.org/schemas/sitemap/0.9"
    ++ dq ++ ">".

Definition urlset_lines (elements : list (list string)) : list string :=
  ([ xml_declaration; urlset_tag ] ++ concat elements ++ [ "</urlset>" ])%list.

(** The number of [<url>] elements of a sitemap: the lines that open one. *)
Definition url_count (xml : string) : nat :=
  occurrences "  <url>" (text_lines xml).

(** The slug of a salon holds no line feed. *)
Definition one_line_slug (salon : ProcessedSalon.t) : Prop :=
  has_char line_feed (ProcessedSalon.slug salon) = false.

(** ** The index maps *)

Lemma Map_get_set m k v k' :
  Map_get (Map_set m k v) k' =
  if bool_decide (k = k') then Some v else Map_get m k'.
Proof.
  induction m as [|[k0 v0] m IH]; simpl.
  - reflexivity.
  - destruct (bool_decide_reflect (k0 = k)) as [->|Hne]; simpl.
    + destruct (bool_decide (k = k')); reflexivity.
    + rewrite IH.
      destruct (bool_decide_reflect (k0 = k')) as [->|Hne'].
      * rewrite bool_decide_eq_false_2 by congruence. reflexivity.
      * reflexivity.
Qed.

Lemma elem_of_Map_set m k v e :
  e ∈ Map_set m k v -> e ∈ m \/ e = (k, v).
Proof.
  induction m as [|[k0 v0] m IH]; simpl.
  - intros ->%list_elem_of_singleton. by right.
  - destruct (bool_decide_reflect (k0 = k)) as [->|Hne].
    + intros [->|Hin]%elem_of_cons; [by right|]. left. by apply elem_of_cons; right.
    + intros [->|Hin]%elem_of_cons.
      * left. by apply elem_of_cons; left.
      * destruct (IH Hin) as [?|?]; [left|by right].
        by apply elem_of_cons; right.
Qed.

Lemma Map_get_elem_of m k i : Map_get m k = Some i -> (k, i) ∈ m.
Proof.
  induction m as [|[k0 v0] m IH]; simpl; [done|].
  destruct (bool_decide_reflect (k0 = k)) as [->|Hne].
  - intros [= ->]. by apply elem_of_cons; left.
  - intros H. apply elem_of_cons; right. auto.
Qed.

Lemma Map_of_ids_snoc ids k :
  Map_of_ids (ids ++ [k])%list = Map_set (Map_of_ids ids) k (length ids).
Proof.
  unfold Map_of_ids. rewrite imap_app, fold_left_app. simpl.
  by rewrite Nat.add_0_r.
Qed.

Lemma Map_of_ids_refs_ok ids : refs_ok (Map_of_ids ids) ids.
Proof.
  induction ids as [|x ids IH] using rev_ind; intros k i.
  - by intros ?%elem_of_nil.
  - rewrite Map_of_ids_snoc. intros [Hin| [= -> ->]]%elem_of_Map_set.
    + apply lookup_app_l_Some. by apply IH.
    + by rewrite list_lookup_middle.
Qed.

(** The index holds, for each id, the last row loaded with that id. *)
Lemma Map_get_of_ids ids k i :
  Map_get (Map_of_ids ids) k = Some i <->
  ids !! i = Some k /\ forall j, ids !! j = Some k -> j <= i.
Proof.
  revert i. induction ids as [|x ids IH] using rev_ind; intros i.
  - simpl. split; [done|]. by intros [? _].
  - rewrite Map_of_ids_snoc, Map_get_set.
    destruct (bool_decide_reflect (x = k)) as [->|Hne].
    + split.
      * intros [= <-]. split; [by rewrite list_lookup_middle|].
        intros j Hj%lookup_lt_Some. rewrite length_app in Hj. simpl in Hj. lia.
      * intros [Hi Hlast]. f_equal.
        apply lookup_lt_Some in Hi as Hlt. rewrite length_app in Hlt. simpl in Hlt.
        specialize (Hlast (length ids)). rewrite list_lookup_middle in Hlast by done.
        specialize (Hlast eq_refl). lia.
    + rewrite IH. split.
      * intros [Hi Hlast]. split; [by apply lookup_app_l_Some|].
        intros j Hj. apply Hlast.
        apply lookup_app_Some in Hj as [Hj|[_ Hj]]; [done|].
        apply list_lookup_singleton_Some in Hj as [_ ?]. congruence.
      * intros [Hi Hlast].
        apply lookup_app_Some in Hi as [Hi|[_ Hi]].
        -- split; [done|]. intros j Hj. apply Hlast. by apply lookup_app_l_Some.
        -- apply list_lookup_singleton_Some in Hi as [_ ?]. congruence.
Qed.

Lemma Map_get_of_ids_None ids k :
  Map_get (Map_of_ids ids) k = None <-> k ∉ ids.
Proof.
  induction ids as [|x ids IH] using rev_ind.
  - simpl. split; [intros _; apply not_elem_of_nil|done].
  - rewrite Map_of_ids_snoc, Map_get_set, not_elem_of_app, <- IH.
    destruct (bool_decide_reflect (x = k)) as [->|Hne].
    + split; [done|]. intros [_ H]. exfalso. apply H. by apply list_elem_of_singleton.
    + split; [|by intros [? _]]. intros H. split; [done|].
      intros ?%list_elem_of_singleton. congruence.
Qed.

Lemma Map_has_of_ids ids k : Map_has (Map_of_ids ids) k = true <-> k ∈ ids.
Proof.
  unfold Map_has. destruct (Map_get (Map_of_ids ids) k) eqn:E.
  - split; [intros _|done].
    apply Map_get_of_ids in E as [E _]. by eapply list_elem_of_lookup_2.
  - apply Map_get_of_ids_None in E. split; [done|]. intros ?. contradiction.
Qed.

Lemma Map_get_row_ok {A : Type} (f : A -> string) (m : JSMap) (rows : list A) k i :
  refs_ok m (map f rows) -> Map_get m k = Some i ->
  exists r, rows !! i = Some r /\ f r = k.
Proof.
  intros Hok Hget. apply Map_get_elem_of, Hok in Hget.
  change (map f rows) with (f <$> rows) in Hget.
  apply list_lookup_fmap_Some in Hget as (r & ? & ?). eauto.
Qed.

(** With ids loaded twice the key keeps the place of its first row and
    refers to its last row. *)
Example Map_of_ids_duplicates :
  Map_of_ids [ "1"; "2"; "1" ] = [ ("1", 2); ("2", 1) ].
Proof. reflexivity. Qed.

Example split_comma_examples :
  split_comma "a,b,c" = [ "a"; "b"; "c" ] /\ split_comma "" = [ "" ] /\
  split_comma "a," = [ "a"; "" ] /\ split_comma "a, b" = [ "a"; " b" ].
Proof. repeat split. Qed.

Example ascii_trim_examples :
  ascii_trim "  123 Main St " = "123 Main St" /\ ascii_trim "   " = "" /\
  ascii_toLowerCase "Springfield" = "springfield".
Proof. repeat split. Qed.

(** ** State-name backfill *)

Lemma truthy_Some s : truthy (Some s) = true <-> s <> "".
Proof.
  simpl. destruct (bool_decide_reflect (s = "")); simpl; split; congruence.
Qed.

Lemma truthy_Some_false s : truthy (Some s) = false <-> s = "".
Proof.
  simpl. destruct (bool_decide_reflect (s = "")); simpl; split; congruence.
Qed.

Lemma addStateName_total sm states city :
  refs_ok sm (map State.id states) ->
  exists city', addStateName sm states city = Some city'.
Proof.
  intros Hok. unfold addStateName.
  destruct (City.state_id city) as [sid|]; [|eauto].
  destruct (truthy (Some sid)); simpl; [|eauto].
  unfold Map_has, Map_get_row.
  destruct (Map_get sm sid) as [j|] eqn:Hget; simpl; [|eauto].
  destruct (Map_get_row_ok State.id sm states sid j Hok Hget) as (st & -> & _).
  simpl. eauto.
Qed.

(** The backfill changes nothing but [state_name]. *)
Lemma addStateName_fields sm states city city' :
  addStateName sm states city = Some city' ->
  City.id city' = City.id city /\ City.city city' = City.city city /\
  City.state_id city' = City.state_id city /\
  City.salon_count city' = City.salon_count city.
Proof.
  unfold addStateName.
  destruct (City.state_id city) as [sid|] eqn:Hsid; [|by intros [= <-]].
  destruct (truthy (Some sid) && Map_has sm sid); [|by intros [= <-]].
  destruct (Map_get_row sm states sid); simpl; [|done].
  intros [= <-]. by simpl.
Qed.

Lemma addStateNames_ids sm states cities cities' :
  addStateNames sm states cities = Some cities' ->
  map City.id cities' = map City.id cities /\
  map City.city cities' = map City.city cities /\
  map City.state_id cities' = map City.state_id cities.
Proof.
  unfold addStateNames. intros H%mapM_Some_1.
  induction H as [|c c' l l' Hc _ IH]; [done|].
  apply addStateName_fields in Hc as (H1 & H2 & H3 & _).
  destruct IH as (IH1 & IH2 & IH3). simpl.
  by rewrite H1, H2, H3, IH1, IH2, IH3.
Qed.

Lemma addStateNames_spec (states : list State.t) (cities : list City.t) :
  exists cities',
    addStateNames (statesMap states) states cities = Some cities' /\
    Forall2 (state_name_filled states) cities cities'.
Proof.
  unfold state_name_filled.
  pose proof (Map_of_ids_refs_ok (map State.id states)) as Hok.
  fold (statesMap states) in Hok.
  destruct (mapM_is_Some_2 (addStateName (statesMap states) states) cities)
    as [cities' Hrun].
  { apply Forall_forall. intros city _.
    destruct (addStateName_total _ _ city Hok) as [c' Hc']. simpl. by rewrite Hc'. }
  exists cities'. split; [exact Hrun|].
  apply mapM_Some_1 in Hrun. eapply Forall2_impl; [exact Hrun|].
  intros city city' Hstep. simpl in Hstep.
  destruct (addStateName_fields _ _ _ _ Hstep) as (Hid & _ & Hsid & _).
  split; [done|]. split; [done|]. unfold addStateName in Hstep. split.
  - intros sid Hc Hne Hhas. rewrite Hc in Hstep.
    apply truthy_Some in Hne. rewrite Hne, Hhas in Hstep. simpl in Hstep.
    unfold Map_has in Hhas.
    destruct (Map_get (statesMap states) sid) as [j|] eqn:Hget; [|done].
    destruct (Map_get_row_ok State.id _ states sid j Hok Hget) as (st & Hst & Hstid).
    unfold Map_get_row in *. rewrite Hget in *. simpl in *. rewrite Hst in *.
    simpl in Hstep. injection Hstep as <-.
    exists st. repeat split; try done. by eapply list_elem_of_lookup_2.
  - intros Hcase. assert (city' = city) as ->; [|done].
    destruct Hcase as [Hc|[Hc|(sid & Hc & Hhas)]]; rewrite Hc in Hstep.
    + congruence.
    + simpl in Hstep. congruence.
    + rewrite Hhas, andb_false_r in Hstep. congruence.
Qed.

(** C5.  The state-name backfill raises no error and returns the cities,
    position by position, annotated as follows: a city whose [state_id] is
    non-empty and present in the state index gets as [state_name] the name
    of the state that the index holds for that id (a state whose id equals
    the city's [state_id]); a city whose [state_id] is absent, empty or
    not in the index keeps the [state_name] it had, so an unset one stays
    unset. *)
Theorem backfill_state_names (states : list State.t) (cities : list City.t) :
  exists cities',
    addStateNames (statesMap states) states cities = Some cities' /\
    Forall2 (state_name_filled states) cities cities'.
Proof. apply addStateNames_spec. Qed.

(** ** Address-based link inference *)

Section Inference.
Variables toLowerCase trim : string -> string.

Lemma findCity_spec entries cities cityName salon :
  (forall k i, (k, i) ∈ entries -> is_Some (cities !! i)) ->
  exists salon',
    findCity toLowerCase entries cities cityName salon = Some salon' /\
    ((exists k i city,
        first_entry (cityNamed toLowerCase cities cityName) entries k i /\
        cities !! i = Some city /\
        salon' = BeautySalon.set_city salon k (City.city city))
     \/ (Forall (fun e => ~ cityNamed toLowerCase cities cityName e) entries /\
         salon' = salon)).
Proof.
  induction entries as [|[k i] rest IH]; intros Hrefs; simpl.
  - exists salon. split; [done|]. right. by split.
  - destruct (Hrefs k i) as [city Hcity]; [by apply elem_of_cons; left|].
    rewrite Hcity. simpl.
    destruct (bool_decide_reflect
                (toLowerCase (City.city city) = toLowerCase cityName)) as [Heq|Hne].
    + eexists. split; [done|]. left. exists k, i, city. split; [|done].
      exists [], rest. split; [done|]. split; [|by constructor].
      exists city. by split.
    + destruct IH as (salon' & Hrun & Hcase).
      { intros k' i' Hin. apply (Hrefs k' i'). by apply elem_of_cons; right. }
      exists salon'. split; [done|].
      assert (~ cityNamed toLowerCase cities cityName (k, i)) as Hnot.
      { intros (c & Hc & Hl). simpl in Hc. congruence. }
      destruct Hcase as [(k' & i' & c' & (before & after & -> & HP & Hbefore) & Hc' & ->)
                        |[Hall ->]].
      * left. exists k', i', c'. split; [|done].
        exists ((k, i) :: before), after. split; [done|]. split; [done|].
        by constructor.
      * right. split; [|done]. by constructor.
Qed.

Lemma findState_spec entries states stateName salon :
  (forall k i, (k, i) ∈ entries -> is_Some (states !! i)) ->
  exists salon',
    findState toLowerCase entries states stateName salon = Some salon' /\
    ((exists k i state,
        first_entry (stateNamed toLowerCase states stateName) entries k i /\
        states !! i = Some state /\
        salon' = BeautySalon.set_state salon k (State.state state))
     \/ (Forall (fun e => ~ stateNamed toLowerCase states stateName e) entries /\
         salon' = salon)).
Proof.
  induction entries as [|[k i] rest IH]; intros Hrefs; simpl.
  - exists salon. split; [done|]. right. by split.
  - destruct (Hrefs k i) as [state Hstate]; [by apply elem_of_cons; left|].
    rewrite Hstate. simpl.
    destruct (bool_decide_reflect
                (toLowerCase (State.state state) = toLowerCase stateName)) as [Heq|Hne].
    + eexists. split; [done|]. left. exists k, i, state. split; [|done].
      exists [], rest. split; [done|]. split; [|by constructor].
      exists state. by split.
    + destruct IH as (salon' & Hrun & Hcase).
      { intros k' i' Hin. apply (Hrefs k' i'). by apply elem_of_cons; right. }
      exists salon'. split; [done|].
      assert (~ stateNamed toLowerCase states stateName (k, i)) as Hnot.
      { intros (c & Hc & Hl). simpl in Hc. congruence. }
      destruct Hcase as [(k' & i' & c' & (before & after & -> & HP & Hbefore) & Hc' & ->)
                        |[Hall ->]].
      * left. exists k', i', c'. split; [|done].
        exists ((k, i) :: before), after. split; [done|]. split; [done|].
        by constructor.
      * right. split; [|done]. by constructor.
Qed.

Lemma refs_ok_is_Some {A : Type} (f : A -> string) m (rows : list A) :
  refs_ok m (map f rows) -> forall k i, (k, i) ∈ m -> is_Some (rows !! i).
Proof.
  intros Hok k i Hin. apply Hok in Hin.
  change (map f rows) with (f <$> rows) in Hin.
  apply list_lookup_fmap_Some in Hin as (r & ? & ?). eauto.
Qed.

Lemma first_entry_elem_of P m k i : first_entry P m k i -> (k, i) ∈ m.
Proof.
  intros (before & after & -> & _). apply elem_of_app. right.
  by apply elem_of_cons; left.
Qed.

(** What the inference does to a salon that fulfils the trigger condition,
    for any index maps whose entries refer to rows of the tables. *)
Lemma inferLinks_triggered cm sm cities states salon address :
  refs_ok cm (map City.id cities) -> refs_ok sm (map State.id states) ->
  BeautySalon.address salon = Some address -> address <> "" ->
  truthy (BeautySalon.city_id salon) = false ->
  truthy (BeautySalon.state_id salon) = false ->
  exists salon',
    inferLinks toLowerCase trim cm sm cities states salon = Some salon' /\
    links_inferred toLowerCase trim cm sm cities states address salon salon'.
Proof.
  intros Hcm Hsm Haddr Hne Hcid Hsid.
  unfold links_inferred, city_linked, state_linked, inferLinks.
  rewrite Haddr, Hcid, Hsid. apply truthy_Some in Hne. rewrite Hne.
  cbn [negb andb]. set (parts := map trim (split_comma address)).
  destruct (Nat.leb_spec 3 (length parts)) as [Hlen|Hlen].
  - destruct (lookup_lt_is_Some_2 parts (length parts - 3)) as [cityName HcN]; [lia|].
    destruct (lookup_lt_is_Some_2 parts (length parts - 2)) as [stateName HsN]; [lia|].
    rewrite HcN, HsN. cbn [mbind option_bind].
    destruct (findCity_spec cm cities cityName salon (refs_ok_is_Some _ _ _ Hcm))
      as (salon1 & Hrun1 & Hcase1).
    rewrite Hrun1. cbn [mbind option_bind].
    destruct (findState_spec sm states stateName salon1 (refs_ok_is_Some _ _ _ Hsm))
      as (salon2 & Hrun2 & Hcase2).
    exists salon2. split; [done|]. split; [lia|]. intros _.
    exists cityName, stateName. split; [done|]. split; [done|]. split.
    + destruct Hcase1 as [(k & i & city & Hfirst & Hcity & ->)|[Hnone ->]].
      * left. exists k, i, city. split; [done|]. split; [done|].
        apply first_entry_elem_of, Hcm in Hfirst as Hk.
        change (map City.id cities) with (City.id <$> cities) in Hk.
        rewrite list_lookup_fmap, Hcity in Hk. injection Hk as Hk.
        split; [done|].
        destruct Hcase2 as [(? & ? & ? & _ & _ & ->)|[_ ->]]; by simpl.
      * right. split; [done|].
        destruct Hcase2 as [(? & ? & ? & _ & _ & ->)|[_ ->]]; by simpl.
    + destruct Hcase2 as [(k & i & state & Hfirst & Hstate & ->)|[Hnone ->]].
      * left. exists k, i, state. split; [done|]. split; [done|].
        apply first_entry_elem_of, Hsm in Hfirst as Hk.
        change (map State.id states) with (State.id <$> states) in Hk.
        rewrite list_lookup_fmap, Hstate in Hk. injection Hk as Hk.
        by simpl.
      * right. split; [done|].
        destruct Hcase1 as [(? & ? & ? & _ & _ & ->)|[_ ->]]; by simpl.
  - exists salon. split; [done|]. split; [done|]. lia.
Qed.

(** The outcome of a search does not depend on the salon it annotates. *)
Lemma findCity_uniform entries cities cityName :
  (forall k i, (k, i) ∈ entries -> is_Some (cities !! i)) ->
  exists r : option (string * string),
    forall salon,
      findCity toLowerCase entries cities cityName salon =
      Some (match r with
            | Some (k, n) => BeautySalon.set_city salon k n
            | None => salon
            end).
Proof.
  induction entries as [|[k i] rest IH]; intros Hrefs.
  - by exists None.
  - destruct (Hrefs k i) as [city Hcity]; [by apply elem_of_cons; left|].
    destruct IH as [r Hr].
    { intros k' i' Hin. apply (Hrefs k' i'). by apply elem_of_cons; right. }
    destruct (bool_decide (toLowerCase (City.city city) = toLowerCase cityName))
      eqn:Hb.
    + exists (Some (k, City.city city)). intros salon. simpl.
      by rewrite Hcity; simpl; rewrite Hb.
    + exists r. intros salon. simpl. by rewrite Hcity; simpl; rewrite Hb.
Qed.

Lemma findState_uniform entries states stateName :
  (forall k i, (k, i) ∈ entries -> is_Some (states !! i)) ->
  exists r : option (string * string),
    forall salon,
      findState toLowerCase entries states stateName salon =
      Some (match r with
            | Some (k, n) => BeautySalon.set_state salon k n
            | None => salon
            end).
Proof.
  induction entries as [|[k i] rest IH]; intros Hrefs.
  - by exists None.
  - destruct (Hrefs k i) as [state Hstate]; [by apply elem_of_cons; left|].
    destruct IH as [r Hr].
    { intros k' i' Hin. apply (Hrefs k' i'). by apply elem_of_cons; right. }
    destruct (bool_decide (toLowerCase (State.state state) = toLowerCase stateName))
      eqn:Hb.
    + exists (Some (k, State.state state)). intros salon. simpl.
      by rewrite Hstate; simpl; rewrite Hb.
    + exists r. intros salon. simpl. by rewrite Hstate; simpl; rewrite Hb.
Qed.

Lemma inferLinks_total cm sm cities states salon :
  refs_ok cm (map City.id cities) -> refs_ok sm (map State.id states) ->
  exists salon', inferLinks toLowerCase trim cm sm cities states salon = Some salon'.
Proof.
  intros Hcm Hsm. unfold inferLinks.
  destruct (BeautySalon.address salon) as [address|]; [|eauto].
  destruct (_ && _); [|eauto].
  set (parts := map trim (split_comma address)).
  destruct (Nat.leb_spec 3 (length parts)) as [Hlen|Hlen]; [|eauto].
  destruct (lookup_lt_is_Some_2 parts (length parts - 3)) as [cityName ->]; [lia|].
  destruct (lookup_lt_is_Some_2 parts (length parts - 2)) as [stateName ->]; [lia|].
  cbn [mbind option_bind].
  destruct (findCity_uniform cm cities cityName (refs_ok_is_Some _ _ _ Hcm)) as [rc Hrc].
  destruct (findState_uniform sm states stateName (refs_ok_is_Some _ _ _ Hsm)) as [rs Hrs].
  rewrite Hrc. cbn [mbind option_bind]. rewrite Hrs. eauto.
Qed.

(** A salon outside the trigger condition is left as it is. *)
Lemma inferLinks_not_triggered cm sm cities states salon :
  truthy (BeautySalon.address salon)
    && negb (truthy (BeautySalon.city_id salon))
    && negb (truthy (BeautySalon.state_id salon)) = false ->
  inferLinks toLowerCase trim cm sm cities states salon = Some salon.
Proof.
  intros H. unfold inferLinks.
  destruct (BeautySalon.address salon) as [address|]; [|done].
  by rewrite H.
Qed.

Lemma inferLinks_idempotent cm sm cities states salon salon' :
  refs_ok cm (map City.id cities) -> refs_ok sm (map State.id states) ->
  inferLinks toLowerCase trim cm sm cities states salon = Some salon' ->
  inferLinks toLowerCase trim cm sm cities states salon' = Some salon'.
Proof.
  intros Hcm Hsm Hrun. unfold inferLinks in Hrun.
  destruct (BeautySalon.address salon) as [address|] eqn:Haddr.
  2:{ injection Hrun as <-. unfold inferLinks. by rewrite Haddr. }
  destruct (truthy (Some address)
            && negb (truthy (BeautySalon.city_id salon))
            && negb (truthy (BeautySalon.state_id salon))) eqn:Htrig.
  2:{ injection Hrun as <-. unfold inferLinks. by rewrite Haddr, Htrig. }
  set (parts := map trim (split_comma address)) in *.
  destruct (Nat.leb_spec 3 (length parts)) as [Hlen|Hlen].
  2:{ injection Hrun as <-. unfold inferLinks. rewrite Haddr, Htrig.
      fold parts. by destruct (Nat.leb_spec 3 (length parts)); [lia|]. }
  destruct (lookup_lt_is_Some_2 parts (length parts - 3)) as [cityName HcN]; [lia|].
  destruct (lookup_lt_is_Some_2 parts (length parts - 2)) as [stateName HsN]; [lia|].
  rewrite HcN, HsN in Hrun. cbn [mbind option_bind] in Hrun.
  destruct (findCity_uniform cm cities cityName (refs_ok_is_Some _ _ _ Hcm)) as [rc Hrc].
  destruct (findState_uniform sm states stateName (refs_ok_is_Some _ _ _ Hsm)) as [rs Hrs].
  rewrite Hrc in Hrun. cbn [mbind option_bind] in Hrun. rewrite Hrs in Hrun.
  injection Hrun as <-.
  set (salon' := match rs with
                 | Some (k, n) => BeautySalon.set_state _ k n
                 | None => _
                 end).
  assert (BeautySalon.address salon' = Some address) as Haddr'.
  { subst salon'. destruct rs as [[? ?]|], rc as [[? ?]|]; exact Haddr. }
  unfold inferLinks. rewrite Haddr'.
  destruct (truthy (Some address)
            && negb (truthy (BeautySalon.city_id salon'))
            && negb (truthy (BeautySalon.state_id salon'))); [|done].
  fold parts.
  destruct (Nat.leb_spec 3 (length parts)); [|lia].
  rewrite HcN, HsN. cbn [mbind option_bind].
  rewrite Hrc. cbn [mbind option_bind]. rewrite Hrs. f_equal.
  subst salon'. destruct rs as [[? ?]|], rc as [[? ?]|]; reflexivity.
Qed.
End Inference.

(** C1.  For a salon with a non-empty address and neither [city_id] nor
    [state_id] set, inference returns a salon [salon'] such that: the address
    is split on commas and each segment trimmed; with fewer than three
    segments the salon is unchanged; with at least three, the third-from-last
    segment is the candidate city name and the second-from-last the candidate
    state name, the city index is searched in insertion order for the first
    city whose name equals the candidate up to case and, on a match,
    [city_id] and [city_name] become that city's id and name, while without
    a match they stay as they were; the state index is searched in the same
    way, on its own, for the candidate state name. *)
Theorem infer_links_from_address (toLowerCase trim : string -> string)
    (cities : list City.t) (states : list State.t)
    (salon : BeautySalon.t) (address : string) :
  BeautySalon.address salon = Some address -> address <> "" ->
  truthy (BeautySalon.city_id salon) = false ->
  truthy (BeautySalon.state_id salon) = false ->
  exists salon',
    inferLinks toLowerCase trim (citiesMap cities) (statesMap states)
      cities states salon = Some salon' /\
    links_inferred toLowerCase trim (citiesMap cities) (statesMap states)
      cities states address salon salon'.
Proof.
  apply inferLinks_triggered; apply Map_of_ids_refs_ok.
Qed.

Lemma infer_links_from_address_witness :
  exists salon',
    inferLinks ascii_toLowerCase ascii_trim
      (citiesMap [ Fixture.springfield ]) (statesMap [ Fixture.illinois ])
      [ Fixture.springfield ] [ Fixture.illinois ] Fixture.salonB = Some salon' /\
    links_inferred ascii_toLowerCase ascii_trim
      (citiesMap [ Fixture.springfield ]) (statesMap [ Fixture.illinois ])
      [ Fixture.springfield ] [ Fixture.illinois ]
      "123 Main St, Springfield, Illinois, USA" Fixture.salonB salon'.
Proof.
  apply (infer_links_from_address ascii_toLowerCase ascii_trim
           [ Fixture.springfield ] [ Fixture.illinois ] Fixture.salonB
           "123 Main St, Springfield, Illinois, USA").
  - reflexivity.
  - discriminate.
  - reflexivity.
  - reflexivity.
Defined.

(** On the sample salon the inference finds both links. *)
Example infer_salonB :
  inferLinks ascii_toLowerCase ascii_trim
    (citiesMap [ Fixture.springfield ]) (statesMap [ Fixture.illinois ])
    [ Fixture.springfield ] [ Fixture.illinois ] Fixture.salonB
  = Some (Fixture.salon "b" "Salon B"
            (Some "123 Main St, Springfield, Illinois, USA")
            (Some "c1") (Some "Springfield") (Some "s1") (Some "Illinois")
            (Some "k1")).
Proof. reflexivity. Qed.

(** ** Idempotence of backfill and inference *)

Lemma addStateName_idempotent sm states city city' :
  addStateName sm states city = Some city' ->
  addStateName sm states city' = Some city'.
Proof.
  unfold addStateName.
  destruct (City.state_id city) as [sid|] eqn:Hsid.
  2:{ intros [= <-]. by rewrite Hsid. }
  destruct (truthy (Some sid) && Map_has sm sid) eqn:Hguard.
  2:{ intros [= <-]. by rewrite Hsid, Hguard. }
  destruct (Map_get_row sm states sid) as [state|] eqn:Hrow; [|done].
  cbn [mbind option_bind]. intros [= <-].
  cbn [City.set_state_name City.state_id]. rewrite Hsid, Hguard, Hrow.
  reflexivity.
Qed.

Lemma Forall2_fixed {A : Type} (R : A -> A -> Prop) (l k : list A) :
  (forall x y, R x y -> R y y) -> Forall2 R l k -> Forall2 R k k.
Proof.
  intros HR H. induction H; constructor; eauto.
Qed.

Lemma citiesMap_addStateNames sm states (cs cs' : list City.t) :
  addStateNames sm states cs = Some cs' -> citiesMap cs' = citiesMap cs.
Proof.
  intros (Hids & _)%addStateNames_ids. unfold citiesMap. by rewrite Hids.
Qed.

Lemma annotate_total (toLowerCase trim : string -> string) (T : Tables) :
  exists cities1 salons1,
    addStateNames (statesMap (states T)) (states T) (cities T) = Some cities1 /\
    inferAllLinks toLowerCase trim (citiesMap (cities T)) (statesMap (states T))
      cities1 (states T) (beautySalons T) = Some salons1 /\
    annotate toLowerCase trim T
    = Some (mkTables salons1 cities1 (states T) (categories T)).
Proof.
  destruct (addStateNames_spec (states T) (cities T)) as (cities1 & Hfill & _).
  assert (refs_ok (citiesMap (cities T)) (map City.id cities1)) as Hcm.
  { apply addStateNames_ids in Hfill as (-> & _). apply Map_of_ids_refs_ok. }
  assert (refs_ok (statesMap (states T)) (map State.id (states T))) as Hsm
    by apply Map_of_ids_refs_ok.
  destruct (mapM_is_Some_2
              (inferLinks toLowerCase trim (citiesMap (cities T))
                 (statesMap (states T)) cities1 (states T)) (beautySalons T))
    as [salons1 Hinfer].
  { apply Forall_forall. intros salon _. simpl.
    destruct (inferLinks_total toLowerCase trim _ _ _ _ salon Hcm Hsm) as [s' ->].
    by eexists. }
  exists cities1, salons1. split; [done|]. split; [done|].
  unfold annotate, annotateWith. rewrite Hfill. cbn [mbind option_bind].
  unfold inferAllLinks in *. by rewrite Hinfer.
Qed.

(** C6.  Backfill and inference are idempotent: the run succeeds, and a
    second run on the tables annotated by the first returns those tables
    unchanged, so every city keeps its [state_name] and every salon its
    [city_id], [city_name], [state_id] and [state_name]. *)
Theorem annotate_idempotent (toLowerCase trim : string -> string) (T : Tables) :
  exists T1,
    annotate toLowerCase trim T = Some T1 /\
    annotate toLowerCase trim T1 = Some T1.
Proof.
  destruct (annotate_total toLowerCase trim T)
    as (cities1 & salons1 & Hfill & Hinfer & Hrun).
  eexists. split; [exact Hrun|].
  unfold annotate, annotateWith. simpl.
  rewrite (citiesMap_addStateNames _ _ _ _ Hfill).
  assert (addStateNames (statesMap (states T)) (states T) cities1 = Some cities1)
    as Hfill2.
  { apply mapM_Some_2. apply mapM_Some_1 in Hfill.
    eapply Forall2_fixed; [|exact Hfill].
    intros x y. apply addStateName_idempotent. }
  rewrite Hfill2. cbn [mbind option_bind].
  assert (inferAllLinks toLowerCase trim (citiesMap (cities T))
            (statesMap (states T)) cities1 (states T) salons1 = Some salons1)
    as Hinfer2.
  { apply mapM_Some_2. apply mapM_Some_1 in Hinfer.
    eapply Forall2_fixed; [|exact Hinfer].
    intros x y. apply inferLinks_idempotent.
    - apply addStateNames_ids in Hfill as (-> & _). apply Map_of_ids_refs_ok.
    - apply Map_of_ids_refs_ok. }
  by rewrite Hinfer2.
Qed.

(** ** Splitting of multi-value fields *)

Lemma split_comma_nonempty s : split_comma s <> [].
Proof.
  destruct s as [|c s]; simpl; [done|].
  destruct (Ascii.eqb c ","); [done|]. by destruct (split_comma s).
Qed.

Lemma join_comma_cons seg segs :
  segs <> [] -> join_comma (seg :: segs) = seg ++ "," ++ join_comma segs.
Proof. by destruct segs. Qed.

(** Joining the segments with commas gives the field back. *)
Lemma join_split_comma s : join_comma (split_comma s) = s.
Proof.
  induction s as [|c s IH]; simpl; [done|].
  destruct (Ascii.eqb_spec c ",") as [->|Hne].
  - rewrite join_comma_cons by apply split_comma_nonempty. by rewrite IH.
  - pose proof (split_comma_nonempty s) as Hnil.
    destruct (split_comma s) as [|seg segs]; [done|].
    destruct segs as [|seg' segs].
    + simpl in *. by rewrite IH.
    + rewrite join_comma_cons in IH by done.
      rewrite join_comma_cons by done. rewrite <- IH. reflexivity.
Qed.

(** No segment contains a comma. *)
Lemma split_comma_no_comma s :
  Forall (fun seg => has_char "," seg = false) (split_comma s).
Proof.
  induction s as [|c s IH]; simpl.
  - by constructor.
  - destruct (Ascii.eqb_spec c ",") as [->|Hne].
    + by constructor.
    + destruct (split_comma s) as [|seg segs]; simpl.
      * constructor; [|done]. cbn [has_char].
        destruct (Ascii.eqb_spec "," c); [congruence|reflexivity].
      * inversion IH; subst. constructor; [|done]. cbn [has_char].
        destruct (Ascii.eqb_spec "," c); [congruence|]. simpl. assumption.
Qed.

Lemma splitField_spec field : field_split field (splitField field).
Proof.
  unfold field_split, splitField. split; [|split].
  - by intros [->| ->].
  - by intros ->.
  - intros s -> Hne%truthy_Some. rewrite Hne.
    split; [apply split_comma_nonempty|].
    split; [apply join_split_comma|apply split_comma_no_comma].
Qed.

(** C8.  In the salon projection each of the six multi-value fields is
    split on commas into the sequence of its segments, in order: an absent or
    empty field gives the empty sequence, the field [a,b,c] gives the three
    segments [a], [b], [c], and any non-empty field gives the comma-free
    segments whose comma-joined text is the field. *)
Theorem multi_value_fields_split (slugify : string -> string)
    (salon : BeautySalon.t) :
  Forall2 field_split
    [ BeautySalon.category_ids salon; BeautySalon.detail_keys salon;
      BeautySalon.detail_values salon; BeautySalon.amenity_ids salon;
      BeautySalon.payment_ids salon; BeautySalon.images salon ]
    [ ProcessedSalon.category_ids (processSalon slugify salon);
      ProcessedSalon.detail_keys (processSalon slugify salon);
      ProcessedSalon.detail_values (processSalon slugify salon);
      ProcessedSalon.amenity_ids (processSalon slugify salon);
      ProcessedSalon.payment_ids (processSalon slugify salon);
      ProcessedSalon.images (processSalon slugify salon) ].
Proof.
  repeat (constructor 2; [apply splitField_spec|]). constructor.
Qed.

(** ** Texts and their lines *)

Lemma append_cons_s x (a b : string) : String x a ++ b = String x (a ++ b).
Proof. reflexivity. Qed.

Lemma append_assoc_s (a b c : string) : (a ++ b) ++ c = a ++ (b ++ c).
Proof.
  induction a as [|x a IH]; [reflexivity|].
  rewrite !append_cons_s. by f_equal.
Qed.

Lemma append_nil_r_s (a : string) : a ++ "" = a.
Proof.
  induction a as [|x a IH]; [reflexivity|]. rewrite append_cons_s. by f_equal.
Qed.

Lemma length_append_s (a b : string) :
  String.length (a ++ b) = String.length a + String.length b.
Proof.
  induction a as [|x a IH]; [reflexivity|].
  rewrite append_cons_s. cbn [String.length]. by rewrite IH.
Qed.

Lemma append_inj_l (p a b : string) : p ++ a = p ++ b -> a = b.
Proof.
  induction p as [|x p IH]; [done|]. rewrite !append_cons_s. intros [= H]. auto.
Qed.

Lemma append_inj_r (a b s : string) : a ++ s = b ++ s -> a = b.
Proof.
  revert b. induction a as [|x a IH]; intros [|y b] H.
  - done.
  - change ("" ++ s) with s in H. rewrite append_cons_s in H.
    apply (f_equal String.length) in H. cbn [String.length] in H.
    rewrite length_append_s in H. lia.
  - change ("" ++ s) with s in H. rewrite append_cons_s in H.
    apply (f_equal String.length) in H. cbn [String.length] in H.
    rewrite length_append_s in H. lia.
  - rewrite !append_cons_s in H. injection H as -> H. f_equal. auto.
Qed.

Lemma occurrences_app k l1 l2 :
  occurrences k (l1 ++ l2) = occurrences k l1 + occurrences k l2.
Proof. unfold occurrences. by rewrite List.filter_app, length_app. Qed.

Lemma occurrences_cons k x l :
  occurrences k (x :: l) = (if bool_decide (x = k) then 1 else 0) + occurrences k l.
Proof. unfold occurrences. simpl. by destruct (bool_decide (x = k)). Qed.

Lemma join_strings_cons x l : join_strings (x :: l) = x ++ join_strings l.
Proof. reflexivity. Qed.

Lemma fold_left_append {A : Type} (f : A -> string) (l : list A) init :
  fold_left (fun xml x => xml ++ f x) l init = init ++ join_strings (map f l).
Proof.
  revert init. induction l as [|x l IH]; intros init.
  - simpl. by rewrite append_nil_r_s.
  - cbn [fold_left map]. by rewrite IH, join_strings_cons, append_assoc_s.
Qed.

Lemma has_char_append c (a b : string) :
  has_char c (a ++ b) = has_char c a || has_char c b.
Proof.
  induction a as [|x a IH]; [reflexivity|].
  rewrite append_cons_s. cbn [has_char]. by rewrite IH, orb_assoc.
Qed.

Lemma text_lines_line line rest :
  has_char line_feed line = false ->
  text_lines (line ++ String line_feed rest) = line :: text_lines rest.
Proof.
  induction line as [|c line IH]; intros Hline.
  - reflexivity.
  - rewrite append_cons_s. cbn [has_char] in Hline.
    apply orb_false_iff in Hline as [Hc Hline].
    cbn [text_lines]. rewrite IH by done.
    destruct (Ascii.eqb_spec c line_feed) as [->|_]; [|done].
    by rewrite Ascii.eqb_refl in Hc.
Qed.

Lemma text_lines_last line :
  has_char line_feed line = false -> text_lines line = [ line ].
Proof.
  induction line as [|c line IH]; intros Hline; [reflexivity|].
  cbn [has_char] in Hline. apply orb_false_iff in Hline as [Hc Hline].
  cbn [text_lines]. rewrite IH by done.
  destruct (Ascii.eqb_spec c line_feed) as [->|_]; [|done].
  by rewrite Ascii.eqb_refl in Hc.
Qed.

(** ** Company sitemaps *)

Lemma chunk_count_spec n :
  n <= 200 * chunk_count n /\ 200 * chunk_count n < n + 200.
Proof.
  unfold chunk_count.
  pose proof (Nat.div_mod_eq (n + 199) 200) as Hdm.
  pose proof (Nat.mod_upper_bound (n + 199) 200) as Hlt.
  set (q := (n + 199) / 200) in *. set (r := (n + 199) mod 200) in *.
  clearbody q r. lia.
Qed.

Lemma chunk_count_lt n k : k < chunk_count n <-> 200 * k < n.
Proof.
  pose proof (chunk_count_spec n). set (m := chunk_count n) in *.
  clearbody m. lia.
Qed.

Lemma companySitemapsFrom_spec salons fuel k :
  chunk_count (length salons) - k <= fuel ->
  companySitemapsFrom fuel (200 * k) salons =
  map (sitemapFile salons) (seq k (chunk_count (length salons) - k)).
Proof.
  revert k. induction fuel as [|fuel IH]; intros k Hfuel.
  - replace (chunk_count (length salons) - k) with 0 by lia. reflexivity.
  - cbn [companySitemapsFrom].
    destruct (Nat.ltb_spec (200 * k) (length salons)) as [Hlt|Hge].
    + apply chunk_count_lt in Hlt as Hk.
      replace (chunk_count (length salons) - k)
        with (S (chunk_count (length salons) - (k + 1))) by lia.
      cbn [seq map]. f_equal.
      * unfold sitemapFile, chunk, slice. f_equal.
        -- do 2 f_equal. rewrite (Nat.mul_comm 200 k), Nat.div_mul by done.
           reflexivity.
        -- do 2 f_equal. lia.
      * replace (200 * k + 200) with (200 * (k + 1)) by lia.
        replace (S k) with (k + 1) by lia. apply IH. lia.
    + assert (~ k < chunk_count (length salons)) as Hk
        by (rewrite chunk_count_lt; lia).
      replace (chunk_count (length salons) - k) with 0 by lia. reflexivity.
Qed.

Lemma chunks_concat {A : Type} (l : list A) j k :
  k + j = chunk_count (length l) ->
  concat (map (chunk l) (seq k j)) = drop (200 * k) l.
Proof.
  revert k. induction j as [|j IH]; intros k Hk.
  - simpl. symmetry. apply drop_ge.
    pose proof (chunk_count_spec (length l)). lia.
  - cbn [seq map concat]. rewrite IH by lia. unfold chunk.
    replace (200 * S k) with (200 * k + 200) by lia.
    rewrite <- drop_drop. apply take_drop.
Qed.

Lemma length_chunk {A : Type} (l : list A) k :
  length (chunk l k) = Nat.min 200 (length l - 200 * k).
Proof. unfold chunk. by rewrite length_take, length_drop. Qed.

Example companySitemaps_names :
  map fst (companySitemaps (repeat (processSalon Fixture.slug Fixture.salonA) 401))
  = [ "companies-sitemap1.xml"; "companies-sitemap2.xml";
      "companies-sitemap3.xml" ] /\
  companySitemaps [] = [].
Proof. split; reflexivity. Qed.

Lemma nl_append (rest : string) : nl ++ rest = String line_feed rest.
Proof. reflexivity. Qed.

Lemma companySitemapXml_text chunk :
  companySitemapXml chunk
  = xml_declaration ++ nl ++ urlset_tag ++ nl
    ++ join_strings (map urlEntry chunk) ++ "</urlset>".
Proof.
  unfold companySitemapXml. rewrite fold_left_append, append_assoc_s.
  reflexivity.
Qed.

Lemma urlEntry_lines salon rest :
  one_line_slug salon ->
  text_lines (urlEntry salon ++ rest)
  = (url_lines (company_loc salon) "monthly" "0.8" ++ text_lines rest)%list.
Proof.
  intros Hslug.
  assert (urlEntry salon ++ rest
          = "  <url>" ++ String line_feed
             (("    <loc>" ++ company_loc salon ++ "</loc>") ++ String line_feed
             ("    <changefreq>monthly</changefreq>" ++ String line_feed
             ("    <priority>0.8</priority>" ++ String line_feed
             ("  </url>" ++ String line_feed rest))))) as ->.
  { unfold urlEntry, company_loc. rewrite !append_assoc_s. reflexivity. }
  rewrite (text_lines_line "  <url>") by reflexivity.
  rewrite (text_lines_line ("    <loc>" ++ company_loc salon ++ "</loc>")).
  2:{ unfold company_loc. rewrite !has_char_append, Hslug. reflexivity. }
  rewrite (text_lines_line "    <changefreq>monthly</changefreq>") by reflexivity.
  rewrite (text_lines_line "    <priority>0.8</priority>") by reflexivity.
  rewrite (text_lines_line "  </url>") by reflexivity.
  reflexivity.
Qed.

Lemma urlEntries_lines chunk rest :
  Forall one_line_slug chunk ->
  text_lines (join_strings (map urlEntry chunk) ++ rest)
  = (concat (map (fun salon => url_lines (company_loc salon) "monthly" "0.8")
               chunk)
     ++ text_lines rest)%list.
Proof.
  induction 1 as [|salon chunk Hslug _ IH]; [reflexivity|].
  cbn [map concat]. rewrite join_strings_cons, append_assoc_s.
  rewrite urlEntry_lines by done. by rewrite IH, app_assoc.
Qed.

Lemma companySitemapXml_lines chunk :
  Forall one_line_slug chunk ->
  text_lines (companySitemapXml chunk)
  = urlset_lines
      (map (fun salon => url_lines (company_loc salon) "monthly" "0.8") chunk).
Proof.
  intros Hchunk. rewrite companySitemapXml_text, !nl_append.
  rewrite (text_lines_line xml_declaration) by reflexivity.
  rewrite (text_lines_line urlset_tag) by reflexivity.
  rewrite urlEntries_lines by done.
  rewrite (text_lines_last "</urlset>") by reflexivity. reflexivity.
Qed.

Lemma url_lines_count loc changefreq priority :
  occurrences "  <url>" (url_lines loc changefreq priority) = 1.
Proof.
  unfold url_lines. rewrite !occurrences_cons.
  rewrite (bool_decide_eq_true_2 ("  <url>" = "  <url>")) by done.
  rewrite !bool_decide_eq_false_2; [reflexivity| | | |];
    intros H; apply (f_equal (String.get 3)) in H; vm_compute in H;
    discriminate H.
Qed.

Lemma urlset_lines_count (locs : list string) :
  occurrences "  <url>"
    (urlset_lines (map (fun loc => url_lines loc "monthly" "0.8") locs))
  = length locs.
Proof.
  unfold urlset_lines. rewrite !occurrences_app.
  assert (occurrences "  <url>"
            (concat (map (fun loc => url_lines loc "monthly" "0.8") locs))
          = length locs) as ->.
  { induction locs as [|loc locs IH]; [reflexivity|].
    cbn [map concat length].
    by rewrite occurrences_app, url_lines_count, IH. }
  rewrite !occurrences_cons.
  rewrite !bool_decide_eq_false_2 by (intros H; discriminate H).
  change (occurrences "  <url>" []) with 0. lia.
Qed.

Lemma companySitemapXml_url_count chunk :
  Forall one_line_slug chunk ->
  url_count (companySitemapXml chunk) = length chunk.
Proof.
  intros Hchunk. unfold url_count. rewrite companySitemapXml_lines by done.
  rewrite <- (map_map company_loc (fun loc => url_lines loc "monthly" "0.8")).
  by rewrite urlset_lines_count, length_map.
Qed.

Lemma Forall_chunk {A : Type} (P : A -> Prop) (l : list A) k :
  Forall P l -> Forall P (chunk l k).
Proof. intros H. unfold chunk. by apply Forall_take, Forall_drop. Qed.

(** C9.  The company sitemap loop writes exactly [ceil (n / 200)] files for
    [n] projected salons; the file of 0-based position [k] is named
    [companies-sitemap<k+1>.xml] and holds the entries of the [k]-th chunk
    of 200 salons; the chunks, in order, make up the salon list, each has 200
    salons except that the last has the remainder, and 450 salons give three
    files of 200, 200 and 50 entries.  What a file holds is said of its
    text: the XML declaration and the opening tag, then one entry per salon
    of its chunk, in the order of the chunk, then the closing tag; where the
    slugs of the chunk hold no line feed, the lines of the text are those of
    one [<url>] element per salon, with the address of the salon's page as
    its [<loc>], and the text has as many [<url>] elements as the chunk has
    salons. *)
Theorem company_sitemaps_chunks (salons : list ProcessedSalon.t) :
  length salons <= 200 * chunk_count (length salons) /\
  200 * chunk_count (length salons) < length salons + 200 /\
  length (companySitemaps salons) = chunk_count (length salons) /\
  companySitemaps salons =
    map (sitemapFile salons) (seq 0 (chunk_count (length salons))) /\
  concat (map (chunk salons) (seq 0 (chunk_count (length salons)))) = salons /\
  (forall k, k < chunk_count (length salons) ->
     length (chunk salons k) = Nat.min 200 (length salons - 200 * k) /\
     0 < length (chunk salons k)) /\
  (length salons = 450 ->
     map (fun k => length (chunk salons k))
       (seq 0 (chunk_count (length salons))) = [ 200; 200; 50 ]) /\
  (forall k, k < chunk_count (length salons) ->
     exists xml,
       companySitemaps salons !! k
       = Some ("companies-sitemap" ++ string_of_nat (k + 1) ++ ".xml", xml) /\
       xml = xml_declaration ++ nl ++ urlset_tag ++ nl
             ++ join_strings (map urlEntry (chunk salons k)) ++ "</urlset>" /\
       (Forall one_line_slug (chunk salons k) ->
        text_lines xml
        = urlset_lines
            (map (fun salon => url_lines (company_loc salon) "monthly" "0.8")
               (chunk salons k)) /\
        url_count xml = length (chunk salons k))) /\
  (length salons = 450 -> Forall one_line_slug salons ->
     map (fun file => url_count (snd file)) (companySitemaps salons)
     = [ 200; 200; 50 ]).
Proof.
  pose proof (chunk_count_spec (length salons)) as [Hlo Hhi].
  assert (companySitemaps salons =
          map (sitemapFile salons) (seq 0 (chunk_count (length salons)))) as Hfiles.
  { unfold companySitemaps.
    rewrite <- (Nat.sub_0_r (chunk_count (length salons))) at 1.
    change 0 with (200 * 0) at 1. apply companySitemapsFrom_spec. lia. }
  split; [done|]. split; [done|]. split.
  { by rewrite Hfiles, length_map, length_seq. }
  split; [done|]. split.
  { rewrite chunks_concat by lia. reflexivity. }
  split.
  { intros k Hk%chunk_count_lt. rewrite length_chunk. lia. }
  split.
  { intros Hn. rewrite Hn.
    change (chunk_count 450) with 3. cbn [seq map].
    rewrite !length_chunk, Hn. reflexivity. }
  split.
  - intros k Hk. exists (companySitemapXml (chunk salons k)). split.
    + rewrite Hfiles. change (map ?f ?l) with (f <$> l).
      rewrite list_lookup_fmap, lookup_seq_lt by done. reflexivity.
    + split; [apply companySitemapXml_text|]. intros Hslugs.
      split; [by apply companySitemapXml_lines
             |by apply companySitemapXml_url_count].
  - intros Hn Hslugs. rewrite Hfiles, map_map, Hn.
    change (chunk_count 450) with 3. cbn [seq map sitemapFile snd].
    rewrite !companySitemapXml_url_count by by apply Forall_chunk.
    rewrite !length_chunk, Hn. reflexivity.
Qed.

(** 450 numbered salons: three files with 200, 200 and 50 [<url>] elements,
    the third one starting with the page of salon 401. *)
Lemma company_sitemaps_chunks_witness :
  map (fun file => url_count (snd file)) (companySitemaps Fixture.salons450)
  = [ 200; 200; 50 ] /\
  exists xml,
    companySitemaps Fixture.salons450 !! 2
    = Some ("companies-sitemap3.xml", xml) /\
    take 4 (text_lines xml)
    = [ xml_declaration; urlset_tag; "  <url>";
        "    <loc>https://electrolysisdirectory.com/companies/unknown-city-unknown-state-salon-401/</loc>" ] /\
    url_count xml = 50.
Proof.
  assert (Forall one_line_slug Fixture.salons450) as Hslugs.
  { assert (forallb (fun salon =>
                       negb (has_char line_feed (ProcessedSalon.slug salon)))
              Fixture.salons450 = true) as Hb by (vm_compute; reflexivity).
    rewrite forallb_forall in Hb. apply Forall_forall.
    intros salon Hin%list_elem_of_In. apply Hb in Hin.
    by apply negb_true_iff in Hin. }
  destruct (company_sitemaps_chunks Fixture.salons450)
    as (_ & _ & _ & _ & _ & _ & _ & Hfile & Hcounts).
  split; [by apply Hcounts|].
  destruct (Hfile 2) as (xml & Hname & _ & Hlines); [vm_compute; lia|].
  exists xml. split; [exact Hname|].
  destruct Hlines as [Hlines Hcount]; [by apply Forall_chunk|].
  split; [rewrite Hlines; vm_compute; reflexivity|].
  rewrite Hcount. vm_compute. reflexivity.
Defined.

(** ** Counting through an index map *)

Section CounterFacts.
Context {A : Type}.
Variables (key : A -> string) (get : A -> option nat) (set : A -> nat -> A).
Hypothesis key_set : forall r n, key (set r n) = key r.
Hypothesis get_set : forall r n, get (set r n) = Some n.
Hypothesis set_set : forall r n n', set (set r n) n' = set r n'.

Lemma bumped_key m ks i r : key (bumped key get set m ks i r) = key r.
Proof. unfold bumped. destruct (hits key m ks i r); [done|apply key_set]. Qed.

Lemma map_key_bumped m ks rows :
  map key (imap (bumped key get set m ks) rows) = map key rows.
Proof.
  apply list_eq. intros i.
  change (map key ?l) with (key <$> l).
  rewrite !list_lookup_fmap, list_lookup_imap.
  destruct (rows !! i); simpl; [|done]. by rewrite bumped_key.
Qed.

Lemma bumped_nil m rows : imap (bumped key get set m []) rows = rows.
Proof.
  apply list_eq. intros i. rewrite list_lookup_imap.
  destruct (rows !! i) as [r|]; simpl; [|done].
  unfold bumped, hits. by destruct (bool_decide _).
Qed.

Lemma bumped_app m ks1 ks2 i r :
  bumped key get set m ks2 i (bumped key get set m ks1 i r)
  = bumped key get set m (ks1 ++ ks2) i r.
Proof.
  unfold bumped at 2 3.
  assert (hits key m (ks1 ++ ks2) i r = hits key m ks1 i r + hits key m ks2 i r)
    as ->.
  { unfold hits. destruct (bool_decide _); [apply occurrences_app|done]. }
  destruct (hits key m ks1 i r) as [|n1] eqn:H1.
  - unfold bumped. by destruct (hits key m ks2 i r).
  - unfold bumped.
    assert (hits key m ks2 i (set r (or_zero (get r) + S n1)) = hits key m ks2 i r)
      as ->.
    { unfold hits. by rewrite key_set. }
    destruct (hits key m ks2 i r) as [|n2].
    + by rewrite Nat.add_0_r.
    + rewrite set_set, get_set. simpl. f_equal. lia.
Qed.

Lemma bump_spec m k rows :
  refs_ok m (map key rows) ->
  bump get set m k rows = Some (imap (bumped key get set m [ k ]) rows).
Proof.
  intros Hok. unfold bump, Map_has.
  destruct (Map_get m k) as [i|] eqn:Hget; cbn [mbind option_bind].
  - destruct (Map_get_row_ok key m rows k i Hok Hget) as (r & Hr & Hkey).
    rewrite Hr. cbn [mbind option_bind]. f_equal.
    apply list_eq. intros j. rewrite list_lookup_imap.
    destruct (decide (i = j)) as [<-|Hne].
    + rewrite list_lookup_insert_eq by (by eapply lookup_lt_Some).
      rewrite Hr. simpl. f_equal. unfold bumped, hits.
      rewrite Hkey, Hget, bool_decide_eq_true_2 by done.
      rewrite occurrences_cons, bool_decide_eq_true_2 by done. reflexivity.
    + rewrite list_lookup_insert_ne by done.
      destruct (rows !! j) as [r'|] eqn:Hr'; simpl; [|done]. f_equal.
      unfold bumped, hits.
      destruct (bool_decide_reflect (Map_get m (key r') = Some j)) as [Hj|]; [|done].
      rewrite occurrences_cons.
      destruct (bool_decide_reflect (k = key r')) as [->|]; [|done].
      congruence.
  - f_equal. apply list_eq. intros j. rewrite list_lookup_imap.
    destruct (rows !! j) as [r'|] eqn:Hr'; simpl; [|done]. f_equal.
    unfold bumped, hits.
    destruct (bool_decide_reflect (Map_get m (key r') = Some j)) as [Hj|]; [|done].
    rewrite occurrences_cons.
    destruct (bool_decide_reflect (k = key r')) as [->|]; [|done].
    congruence.
Qed.

Lemma imap_bumped_app m ks1 ks2 rows :
  imap (bumped key get set m ks2) (imap (bumped key get set m ks1) rows)
  = imap (bumped key get set m (ks1 ++ ks2)) rows.
Proof.
  apply list_eq. intros i. rewrite !list_lookup_imap.
  destruct (rows !! i); simpl; [|done]. by rewrite bumped_app.
Qed.

Lemma bumps_spec m ks rows :
  refs_ok m (map key rows) ->
  bumps get set m ks rows = Some (imap (bumped key get set m ks) rows).
Proof.
  revert rows. induction ks as [|k ks IH]; intros rows Hok.
  - simpl. by rewrite bumped_nil.
  - cbn [bumps]. rewrite bump_spec by done. cbn [mbind option_bind].
    rewrite IH by (by rewrite map_key_bumped).
    by rewrite imap_bumped_app.
Qed.

(** On a row whose counter is unset the counter ends up as [tally] says. *)
Lemma get_bumped m ks i r :
  get r = None ->
  get (bumped key get set m ks i r) = tally (hits key m ks i r).
Proof.
  intros Hr. unfold bumped. destruct (hits key m ks i r); [done|].
  rewrite get_set, Hr. reflexivity.
Qed.
End CounterFacts.

(** ** The aggregation passes *)

Lemma bumps_one {A : Type} (get : A -> option nat) (set : A -> nat -> A) m k rows :
  bumps get set m [ k ] rows = bump get set m k rows.
Proof. cbn [bumps]. by destruct (bump get set m k rows). Qed.

Lemma guarded_bump {A : Type} (get : A -> option nat) (set : A -> nat -> A)
    m (o : option string) (rows : list A) :
  match o with
  | Some k =>
      if truthy (Some k) && Map_has m k then
        i ← Map_get m k;
        r ← rows !! i;
        Some (<[i := set r (or_zero (get r) + 1)]> rows)
      else Some rows
  | None => Some rows
  end = bumps get set m (set_keys o) rows.
Proof.
  destruct o as [k|]; [|done]. unfold set_keys.
  destruct (truthy (Some k)); [|done].
  rewrite bumps_one. reflexivity.
Qed.

Lemma countCity_bumps cm salon cities :
  countCity cm salon cities =
  bumps City.salon_count City.set_salon_count cm
    (set_keys (BeautySalon.city_id salon)) cities.
Proof. apply guarded_bump. Qed.

Lemma countState_bumps sm salon states :
  countState sm salon states =
  bumps State.salon_count State.set_salon_count sm
    (set_keys (BeautySalon.state_id salon)) states.
Proof. apply guarded_bump. Qed.

Lemma countCityOfState_bumps sm city states :
  countCityOfState sm city states =
  bumps State.city_count State.set_city_count sm
    (set_keys (City.state_id city)) states.
Proof. apply guarded_bump. Qed.

Lemma countCategoryIds_bumps catm ids categories :
  countCategoryIds catm ids categories =
  bumps Category.salon_count Category.set_salon_count catm ids categories.
Proof.
  revert categories. induction ids as [|k ids IH]; intros categories; [done|].
  cbn [countCategoryIds bumps].
  change (countCategory catm k categories)
    with (bump Category.salon_count Category.set_salon_count catm k categories).
  destruct (bump _ _ catm k categories); [|done]. apply IH.
Qed.

Lemma countCategories_bumps catm salon categories :
  countCategories catm salon categories =
  bumps Category.salon_count Category.set_salon_count catm
    (splitField (BeautySalon.category_ids salon)) categories.
Proof.
  unfold countCategories, splitField.
  destruct (BeautySalon.category_ids salon) as [ids|]; [|done].
  destruct (truthy (Some ids)); [|done]. apply countCategoryIds_bumps.
Qed.

Lemma countSalons_spec cm sm catm salons cs ss cats :
  refs_ok cm (map City.id cs) -> refs_ok sm (map State.id ss) ->
  refs_ok catm (map Category.id cats) ->
  countSalons cm sm catm salons (mkCounted cs ss cats) =
  Some (mkCounted
          (imap (bumped City.id City.salon_count City.set_salon_count
                   cm (cityKeys salons)) cs)
          (imap (bumped State.id State.salon_count State.set_salon_count
                   sm (stateKeys salons)) ss)
          (imap (bumped Category.id Category.salon_count
                   Category.set_salon_count catm (categoryKeys salons)) cats)).
Proof.
  revert cs ss cats. induction salons as [|salon salons IH]; intros cs ss cats Hc Hs Hk.
  - cbn [countSalons]. unfold cityKeys, stateKeys, categoryKeys. simpl.
    by rewrite !bumped_nil.
  - cbn [countSalons]. unfold countSalon. cbn [counted_cities counted_states counted_categories].
    rewrite countCity_bumps, countState_bumps, countCategories_bumps.
    rewrite (bumps_spec City.id), (bumps_spec State.id),
      (bumps_spec Category.id) by done.
    cbn [mbind option_bind].
    rewrite IH by (by rewrite map_key_bumped).
    unfold cityKeys, stateKeys, categoryKeys. cbn [flat_map].
    by rewrite !imap_bumped_app.
Qed.

Lemma countCitiesPerState_spec sm cities ss :
  refs_ok sm (map State.id ss) ->
  countCitiesPerState sm cities ss =
  Some (imap (bumped State.id State.city_count State.set_city_count
                sm (cityStateKeys cities)) ss).
Proof.
  revert ss. induction cities as [|city cities IH]; intros ss Hs.
  - cbn [countCitiesPerState]. unfold cityStateKeys. simpl. by rewrite bumped_nil.
  - cbn [countCitiesPerState]. rewrite countCityOfState_bumps.
    rewrite (bumps_spec State.id) by done. cbn [mbind option_bind].
    rewrite IH by (by rewrite map_key_bumped).
    unfold cityStateKeys. cbn [flat_map]. by rewrite imap_bumped_app.
Qed.

Lemma occurrences_set_keys {B : Type} (f : B -> option string) k (l : list B) :
  occurrences k (flat_map (fun x => set_keys (f x)) l)
  = length (List.filter (fun x => set_to (f x) k) l).
Proof.
  induction l as [|x l IH]; [done|].
  cbn [flat_map List.filter]. rewrite occurrences_app, IH.
  unfold set_keys, set_to. destruct (f x) as [v|]; [|done].
  destruct (truthy (Some v)); [|done]. cbn [andb].
  rewrite occurrences_cons.
  destruct (bool_decide_reflect (v = k)) as [->|Hne].
  - by rewrite bool_decide_eq_true_2.
  - rewrite bool_decide_eq_false_2 by congruence. done.
Qed.

(** The tables that [resolve] returns, spelled out. *)
Lemma resolve_spec (toLowerCase trim : string -> string) (T : Tables) :
  exists cities1 salons1,
    annotate toLowerCase trim T
      = Some (mkTables salons1 cities1 (states T) (categories T)) /\
    Forall2 (fun c c1 => City.id c1 = City.id c /\
                         City.state_id c1 = City.state_id c /\
                         City.salon_count c1 = City.salon_count c)
      (cities T) cities1 /\
    resolve toLowerCase trim T =
    Some (mkTables salons1
            (imap (bumped City.id City.salon_count City.set_salon_count
                     (citiesMap (cities T)) (cityKeys salons1)) cities1)
            (imap (bumped State.id State.city_count State.set_city_count
                     (statesMap (states T))
                     (cityStateKeys
                        (imap (bumped City.id City.salon_count
                                 City.set_salon_count (citiesMap (cities T))
                                 (cityKeys salons1)) cities1)))
               (imap (bumped State.id State.salon_count State.set_salon_count
                        (statesMap (states T)) (stateKeys salons1)) (states T)))
            (imap (bumped Category.id Category.salon_count
                     Category.set_salon_count (categoriesMap (categories T))
                     (categoryKeys salons1)) (categories T))).
Proof.
  destruct (annotate_total toLowerCase trim T)
    as (cities1 & salons1 & Hfill & Hinfer & Hrun).
  exists cities1, salons1. split; [done|].
  assert (Forall2 (fun c c1 => City.id c1 = City.id c /\
                               City.state_id c1 = City.state_id c /\
                               City.salon_count c1 = City.salon_count c)
            (cities T) cities1) as Hrows.
  { apply mapM_Some_1 in Hfill. eapply Forall2_impl; [exact Hfill|].
    intros c c1 (? & ? & ? & ?)%addStateName_fields. done. }
  split; [done|].
  unfold resolve. unfold annotate in Hrun. rewrite Hrun.
  cbn [mbind option_bind]. unfold aggregateWith.
  cbn [beautySalons cities states categories].
  rewrite countSalons_spec.
  - cbn [mbind option_bind counted_cities counted_states counted_categories].
    rewrite countCitiesPerState_spec; [done|].
    rewrite map_key_bumped by done. apply Map_of_ids_refs_ok.
  - apply addStateNames_ids in Hfill as (-> & _). apply Map_of_ids_refs_ok.
  - apply Map_of_ids_refs_ok.
  - apply Map_of_ids_refs_ok.
Qed.

Lemma bumped_counter {A : Type} (key : A -> string) (get : A -> option nat)
    (set : A -> nat -> A) m ks i r :
  (forall r n, key (set r n) = key r) ->
  (forall r n, get (set r n) = Some n) ->
  get r = None ->
  (Map_get m (key (bumped key get set m ks i r)) = Some i ->
   get (bumped key get set m ks i r)
   = tally (occurrences (key (bumped key get set m ks i r)) ks)) /\
  (Map_get m (key (bumped key get set m ks i r)) <> Some i ->
   get (bumped key get set m ks i r) = None).
Proof.
  intros Hkey Hget Hr. rewrite bumped_key by done.
  rewrite get_bumped by done. unfold hits.
  split; intros H.
  - by rewrite bool_decide_eq_true_2.
  - by rewrite bool_decide_eq_false_2.
Qed.

Lemma salon_count_bumped_city_count m ks i r :
  State.salon_count
    (bumped State.id State.city_count State.set_city_count m ks i r)
  = State.salon_count r.
Proof. unfold bumped. by destruct (hits _ _ _ _ _). Qed.

Lemma city_count_bumped_salon_count m ks i r :
  State.city_count
    (bumped State.id State.salon_count State.set_salon_count m ks i r)
  = State.city_count r.
Proof. unfold bumped. by destruct (hits _ _ _ _ _). Qed.

Lemma state_id_bumped m ks i r :
  City.state_id
    (bumped City.id City.salon_count City.set_salon_count m ks i r)
  = City.state_id r.
Proof. unfold bumped. by destruct (hits _ _ _ _ _). Qed.

Lemma resolve_counts (toLowerCase trim : string -> string) (T : Tables) :
  Forall (fun city => City.salon_count city = None) (cities T) ->
  Forall (fun state => State.salon_count state = None /\
                       State.city_count state = None) (states T) ->
  Forall (fun category => Category.salon_count category = None) (categories T) ->
  exists T', resolve toLowerCase trim T = Some T' /\ counts_aggregated T T'.
Proof.
  intros Hcities Hstates Hcategories.
  destruct (resolve_spec toLowerCase trim T)
    as (cities1 & salons1 & _ & Hrows & Hrun).
  eexists. split; [exact Hrun|].
  unfold counts_aggregated. cbn [beautySalons cities states categories].
  assert (map City.id cities1 = map City.id (cities T)) as Hids.
  { clear -Hrows. induction Hrows as [|c c1 l l1 (Hid & _) _ IH]; [done|].
    simpl. by rewrite Hid, IH. }
  repeat split.
  - intros Hheld.
    apply list_lookup_imap_Some in H as (c1 & Hc1 & ->).
    destruct (Forall2_lookup_r _ _ _ _ _ Hrows Hc1) as (c & Hc & _ & _ & Hcount).
    pose proof (Forall_lookup_1 _ _ _ _ Hcities Hc) as Hfresh. simpl in Hfresh.
    rewrite <- (occurrences_set_keys BeautySalon.city_id).
    apply (bumped_counter City.id City.salon_count City.set_salon_count);
      [done|done|congruence|done].
  - intros Hheld.
    apply list_lookup_imap_Some in H as (c1 & Hc1 & ->).
    destruct (Forall2_lookup_r _ _ _ _ _ Hrows Hc1) as (c & Hc & _ & _ & Hcount).
    pose proof (Forall_lookup_1 _ _ _ _ Hcities Hc) as Hfresh. simpl in Hfresh.
    apply (bumped_counter City.id City.salon_count City.set_salon_count);
      [done|done|congruence|done].
  - apply list_lookup_imap_Some in H as (s1 & Hs1 & ->).
    apply list_lookup_imap_Some in Hs1 as (s0 & Hs0 & ->).
    pose proof (Forall_lookup_1 _ _ _ _ Hstates Hs0) as [Hfresh _].
    rewrite salon_count_bumped_city_count.
    rewrite (bumped_key State.id State.city_count State.set_city_count) in * by done.
    rewrite <- (occurrences_set_keys BeautySalon.state_id).
    apply (bumped_counter State.id State.salon_count State.set_salon_count);
      [done|done|done|done].
  - apply list_lookup_imap_Some in H as (s1 & Hs1 & ->).
    apply list_lookup_imap_Some in Hs1 as (s0 & Hs0 & ->).
    pose proof (Forall_lookup_1 _ _ _ _ Hstates Hs0) as [_ Hfresh].
    rewrite <- (occurrences_set_keys City.state_id).
    apply (bumped_counter State.id State.city_count State.set_city_count);
      [done|done| |done].
    by rewrite city_count_bumped_salon_count.
  - apply list_lookup_imap_Some in H as (s1 & Hs1 & ->).
    apply list_lookup_imap_Some in Hs1 as (s0 & Hs0 & ->).
    pose proof (Forall_lookup_1 _ _ _ _ Hstates Hs0) as [Hfresh _].
    rewrite salon_count_bumped_city_count.
    rewrite (bumped_key State.id State.city_count State.set_city_count) in * by done.
    apply (bumped_counter State.id State.salon_count State.set_salon_count);
      [done|done|done|done].
  - apply list_lookup_imap_Some in H as (s1 & Hs1 & ->).
    apply list_lookup_imap_Some in Hs1 as (s0 & Hs0 & ->).
    pose proof (Forall_lookup_1 _ _ _ _ Hstates Hs0) as [_ Hfresh].
    apply (bumped_counter State.id State.city_count State.set_city_count);
      [done|done| |done].
    by rewrite city_count_bumped_salon_count.
  - intros Hheld.
    apply list_lookup_imap_Some in H as (c0 & Hc0 & ->).
    pose proof (Forall_lookup_1 _ _ _ _ Hcategories Hc0) as Hfresh.
    apply (bumped_counter Category.id Category.salon_count
             Category.set_salon_count); [done|done|done|done].
  - intros Hheld.
    apply list_lookup_imap_Some in H as (c0 & Hc0 & ->).
    pose proof (Forall_lookup_1 _ _ _ _ Hcategories Hc0) as Hfresh.
    apply (bumped_counter Category.id Category.salon_count
             Category.set_salon_count); [done|done|done|done].
  - by rewrite map_key_bumped.
  - by rewrite !map_key_bumped.
  - by rewrite map_key_bumped.
Qed.

(** C2 (as amended).  For tables loaded with unset counters the whole pass
    succeeds, and afterwards: each city that the city index holds has
    [salon_count] equal to the number of salons whose [city_id] is set
    (non-empty) and equals the city's id, a count of zero leaving the
    counter unset; each state that the state index holds has [salon_count]
    and [city_count] equal, in the same way, to the number of salons and of
    cities whose [state_id] is set and equals the state's id; each category
    that the category index holds has [salon_count] equal to the number of
    occurrences of its id, duplicates counted multiply, among the comma-split
    [category_ids] of all salons; and a row that its index does not hold
    keeps its counters unset. *)
Theorem aggregated_counts (toLowerCase trim : string -> string) (T : Tables) :
  Forall (fun city => City.salon_count city = None) (cities T) ->
  Forall (fun state => State.salon_count state = None /\
                       State.city_count state = None) (states T) ->
  Forall (fun category => Category.salon_count category = None) (categories T) ->
  exists T', resolve toLowerCase trim T = Some T' /\ counts_aggregated T T'.
Proof. apply resolve_counts. Qed.

Lemma aggregated_counts_witness :
  exists T',
    resolve ascii_toLowerCase ascii_trim Fixture.tables = Some T' /\
    counts_aggregated Fixture.tables T'.
Proof.
  apply (aggregated_counts ascii_toLowerCase ascii_trim Fixture.tables).
  - repeat constructor.
  - repeat constructor.
  - repeat constructor.
Defined.

(** On the sample tables both salons are counted for the city, the state
    and the category. *)
Example resolve_fixture :
  resolve ascii_toLowerCase ascii_trim Fixture.tables =
  Some (mkTables
          [ Fixture.salonA;
            Fixture.salon "b" "Salon B"
              (Some "123 Main St, Springfield, Illinois, USA")
              (Some "c1") (Some "Springfield") (Some "s1") (Some "Illinois")
              (Some "k1") ]
          [ City.mk "c1" "Springfield" (Some "s1") (Some "Illinois") (Some 2) ]
          [ State.mk "s1" "Illinois" (Some 1) (Some 2) ]
          [ Category.mk "k1" "Electrolysis" (Some 2) ]).
Proof. reflexivity. Qed.

(** C2, the claim as stated fails: a state without salons ends with
    [salon_count] unset, not 0; a state with an empty id is not counted for
    the salon whose [state_id] is that same empty string; and of two city
    rows loaded with one id only the last is counted for the salon of that
    id. *)
Lemma aggregated_counts_counterexample :
  exists T',
    resolve ascii_toLowerCase ascii_trim Fixture.tables_odd = Some T' /\
    map State.id (states T') = [ ""; "s2" ] /\
    map State.salon_count (states T') = [ None; None ] /\
    map (fun state =>
           length (List.filter
                     (fun salon =>
                        bool_decide (BeautySalon.state_id salon
                                     = Some (State.id state)))
                     (beautySalons T')))
        (states T') = [ 1; 0 ] /\
    map City.id (cities T') = [ "c7"; "c7" ] /\
    map City.salon_count (cities T') = [ None; Some 1 ] /\
    map (fun city =>
           length (List.filter
                     (fun salon =>
                        bool_decide (BeautySalon.city_id salon
                                     = Some (City.id city)))
                     (beautySalons T')))
        (cities T') = [ 1; 1 ] /\
    (None : option nat) <> Some 1 /\ (None : option nat) <> Some 0.
Proof.
  eexists. split; [reflexivity|]. repeat split; discriminate.
Qed.

(** ** Aggregated count against projected membership *)



(** ** The state projection *)

Lemma picks_filter {A : Type} (P : A -> Prop) (f : A -> bool) (l : list A) :
  (forall x, f x = true <-> P x) -> picks P l (List.filter f l).
Proof.
  intros Hf. induction l as [|x l IH]; simpl; [constructor|].
  destruct (f x) eqn:Hx.
  - apply picks_keep; [by apply Hf|done].
  - apply picks_skip; [|done]. rewrite <- Hf. congruence.
Qed.

(** [picks] keeps exactly the elements that satisfy the predicate, in the
    order of the list, and no position twice. *)
Lemma picks_elem_of {A : Type} (P : A -> Prop) (l out : list A) x :
  picks P l out -> x ∈ out <-> x ∈ l /\ P x.
Proof.
  induction 1 as [|y l out Hy _ IH|y l out Hy _ IH].
  - split; [by intros ?%elem_of_nil|by intros [?%elem_of_nil _]].
  - rewrite !elem_of_cons, IH. split.
    + intros [->|[? ?]]; auto.
    + intros [[->|?] ?]; auto.
  - rewrite elem_of_cons, IH. split.
    + intros [? ?]; auto.
    + intros [[->|?] ?]; [contradiction|auto].
Qed.

Lemma picks_sublist {A : Type} (P : A -> Prop) (l out : list A) :
  picks P l out -> sublist out l.
Proof.
  induction 1; [constructor|by apply sublist_skip|by apply sublist_cons].
Qed.

Lemma picks_length {A : Type} (P : A -> Prop) (l out : list A) :
  picks P l out -> length out <= length l.
Proof. intros H%picks_sublist. by apply sublist_length. Qed.

Lemma set_to_spec o v : set_to o v = true <-> is_set o v.
Proof.
  unfold set_to, is_set. rewrite andb_true_iff, bool_decide_eq_true.
  split.
  - intros [Ht ->]. split; [done|]. by apply truthy_Some.
  - intros [-> Hne]. split; [|done]. by apply truthy_Some.
Qed.

Lemma named_like_spec lower o v :
  named_like lower o v = true <-> exists n, is_set o n /\ lower n = lower v.
Proof.
  unfold named_like, is_set. destruct o as [n|].
  - rewrite andb_true_iff, bool_decide_eq_true, truthy_Some. split.
    + intros [? ?]. by exists n.
    + intros (n' & [[= <-] ?] & ?). done.
  - simpl. split; [done|]. by intros (n & [? _] & _).
Qed.

Lemma truthy_includes_spec ids o :
  truthy o && includes ids o = true <-> exists c, is_set o c /\ c ∈ ids.
Proof.
  unfold includes, is_set. destruct o as [c|].
  - rewrite andb_true_iff, bool_decide_eq_true, truthy_Some. split.
    + intros [? ?]. by exists c.
    + intros (c' & [[= <-] ?] & ?). done.
  - simpl. split; [done|]. by intros (c & [? _] & _).
Qed.

Lemma inState_spec lower ids state salon :
  inState lower ids state salon = true <-> salon_of_state lower ids state salon.
Proof.
  unfold inState, salon_of_state.
  rewrite <- set_to_spec, <- named_like_spec, <- truthy_includes_spec.
  destruct (set_to _ _); [by split; auto|].
  destruct (named_like _ _ _); [by split; auto|].
  destruct (truthy _ && includes _ _); [by split; auto|].
  split; [done|]. by intros [?|[?|?]].
Qed.

(** C7 (as amended).  For every projected state record, [city_ids] lists,
    in order and once each, the ids of exactly the projected cities whose
    [state_id] equals the state's id, and [salon_ids] lists, in order and
    once each, the ids of exactly the projected salons that satisfy at least
    one of: [state_id] is set (non-empty) and equals the state's id;
    [state_name] is set and equals the state's name up to case; [city_id]
    is set and is a member of the record's [city_ids]. *)
Theorem state_projection (toLowerCase slugify : string -> string)
    (salons : list ProcessedSalon.t) (cities : list ProcessedCity.t)
    (state : State.t) :
  exists stateCities stateSalons,
    picks (city_of_state state) cities stateCities /\
    ProcessedState.city_ids (processState toLowerCase slugify salons cities state)
      = map ProcessedCity.id stateCities /\
    picks (salon_of_state toLowerCase
             (ProcessedState.city_ids
                (processState toLowerCase slugify salons cities state)) state)
      salons stateSalons /\
    ProcessedState.salon_ids (processState toLowerCase slugify salons cities state)
      = map ProcessedSalon.id stateSalons /\
    ProcessedState.id (processState toLowerCase slugify salons cities state)
      = State.id state.
Proof.
  exists (List.filter (cityOfState state) cities),
         (List.filter (inState toLowerCase (cityIdsForState cities state) state)
            salons).
  split; [|split; [reflexivity|split; [|split; reflexivity]]].
  - apply picks_filter. intros city. unfold cityOfState, city_of_state.
    apply bool_decide_eq_true.
  - apply picks_filter. intros salon. apply inState_spec.
Qed.

(** C7, the claim as stated fails: a salon whose [state_id] is the empty
    string has a [state_id] equal to the id of a state whose id is empty,
    and the state's [salon_ids] does not list it. *)
Lemma state_projection_counterexample :
  (forall toLowerCase slugify : string -> string,
     ProcessedState.salon_ids
       (processState toLowerCase slugify
          (processedSalons slugify [ Fixture.salonD ]) [] Fixture.nameless)
     = []) /\
  (forall slugify : string -> string,
     ProcessedSalon.state_id (processSalon slugify Fixture.salonD)
     = Some (State.id Fixture.nameless)).
Proof. split; reflexivity. Qed.

(** ** The projected records and their salon counts *)

(** C4 (as amended).  No projected city, state or category record has a
    [salon_count] property: reading it gives [undefined].  Each record
    carries the list [salon_ids], so the number of its salons is the length
    of that list and nothing else in the record. *)
Theorem projected_records_carry_salon_ids
    (toLowerCase slugify : string -> string) (T : Tables) :
  Forall (fun r =>
            get_prop (city_object r) "salon_count" = JUndefined /\
            get_prop (city_object r) "salon_ids"
              = JStrings (ProcessedCity.salon_ids r))
    (cities_json (project toLowerCase slugify T)) /\
  Forall (fun r =>
            get_prop (state_object r) "salon_count" = JUndefined /\
            get_prop (state_object r) "salon_ids"
              = JStrings (ProcessedState.salon_ids r))
    (states_json (project toLowerCase slugify T)) /\
  Forall (fun r =>
            get_prop (category_object r) "salon_count" = JUndefined /\
            get_prop (category_object r) "salon_ids"
              = JStrings (ProcessedCategory.salon_ids r))
    (categories_json (project toLowerCase slugify T)).
Proof.
  repeat split; apply Forall_forall; intros r _; split; reflexivity.
Qed.

(** C4, the claim as stated fails: on the sample tables the projected city,
    state and category each list two salons, and none of the three records
    has a [salon_count] property holding 2. *)
Lemma projected_salon_count_counterexample :
  exists T' P city state category,
    generateHTML ascii_toLowerCase ascii_trim Fixture.slug Fixture.tables
      = Some (T', P) /\
    cities_json P = [ city ] /\ states_json P = [ state ] /\
    categories_json P = [ category ] /\
    ProcessedCity.salon_ids city = [ "a"; "b" ] /\
    ProcessedState.salon_ids state = [ "a"; "b" ] /\
    ProcessedCategory.salon_ids category = [ "a"; "b" ] /\
    get_prop (city_object city) "salon_count" = JUndefined /\
    get_prop (state_object state) "salon_count" = JUndefined /\
    get_prop (category_object category) "salon_count" = JUndefined /\
    JUndefined <> JNumber 2.
Proof.
  eexists _, _, _, _, _. split; [reflexivity|].
  repeat split; discriminate.
Qed.

(** ** Untrimmed segments *)

(** C10.  The segments of a multi-value field are not trimmed: joined with
    commas they give the field back character for character.  For a salon
    whose [category_ids] is [a, b] the projected segments are [a] and [ b]
    (with the blank), the counting step for that salon leaves every category
    with id [b] as it was, and that salon is not a member of a category with
    id [b] in the category projection. *)
Theorem untrimmed_category_segments (slugify : string -> string)
    (salon : BeautySalon.t) :
  BeautySalon.category_ids salon = Some "a, b" ->
  join_comma (ProcessedSalon.category_ids (processSalon slugify salon)) = "a, b" /\
  ProcessedSalon.category_ids (processSalon slugify salon) = [ "a"; " b" ] /\
  (forall categories,
     exists categories',
       countCategories (categoriesMap categories) salon categories
         = Some categories' /\
       forall i category,
         categories !! i = Some category -> Category.id category = "b" ->
         categories' !! i = Some category) /\
  (forall category,
     Category.id category = "b" ->
     inCategory category (processSalon slugify salon) = false).
Proof.
  intros Hids.
  assert (ProcessedSalon.category_ids (processSalon slugify salon) = [ "a"; " b" ])
    as Hsegs.
  { cbn [processSalon ProcessedSalon.category_ids]. by rewrite Hids. }
  split; [by rewrite Hsegs|]. split; [done|]. split.
  - intros categories. eexists. split.
    + rewrite countCategories_bumps.
      apply (bumps_spec Category.id); [done|done|done|apply Map_of_ids_refs_ok].
    + intros i category Hi Hb. rewrite list_lookup_imap, Hi. simpl. f_equal.
      unfold bumped, hits. rewrite Hids, Hb.
      by destruct (bool_decide _).
  - intros category Hb. unfold inCategory. by rewrite Hsegs, Hb.
Qed.

Lemma untrimmed_category_segments_witness :
  join_comma
    (ProcessedSalon.category_ids (processSalon Fixture.slug Fixture.salonE))
    = "a, b" /\
  ProcessedSalon.category_ids (processSalon Fixture.slug Fixture.salonE)
    = [ "a"; " b" ] /\
  (forall categories,
     exists categories',
       countCategories (categoriesMap categories) Fixture.salonE categories
         = Some categories' /\
       forall i category,
         categories !! i = Some category -> Category.id category = "b" ->
         categories' !! i = Some category) /\
  (forall category,
     Category.id category = "b" ->
     inCategory category (processSalon Fixture.slug Fixture.salonE) = false).
Proof.
  apply (untrimmed_category_segments Fixture.slug Fixture.salonE).
  reflexivity.
Defined.

(** A category whose id has the blank is the one that is counted. *)
Example count_blank_category :
  countCategories
    (categoriesMap [ Category.mk "b" "B" None; Category.mk " b" "Blank B" None ])
    Fixture.salonE
    [ Category.mk "b" "B" None; Category.mk " b" "Blank B" None ]
  = Some [ Category.mk "b" "B" None; Category.mk " b" "Blank B" (Some 1) ].
Proof. reflexivity. Qed.

(** * Further properties of the script *)

(** ** The index maps as lookup tables *)

Lemma Map_set_keys m k v :
  map fst (Map_set m k v) =
  if bool_decide (k ∈ map fst m) then map fst m else (map fst m ++ [ k ])%list.
Proof.
  induction m as [|[k0 v0] m IH]; cbn [Map_set map fst].
  - destruct (bool_decide_reflect (k ∈ @nil string)) as [H|_]; [|done].
    by apply elem_of_nil in H.
  - destruct (bool_decide_reflect (k0 = k)) as [->|Hne]; cbn [map fst].
    + rewrite bool_decide_eq_true_2; [done|]. by apply elem_of_cons; left.
    + rewrite IH. destruct (bool_decide_reflect (k ∈ map fst m)) as [Hin|Hnin].
      * rewrite bool_decide_eq_true_2; [done|]. by apply elem_of_cons; right.
      * rewrite bool_decide_eq_false_2; [done|].
        intros [->|?]%elem_of_cons; [congruence|contradiction].
Qed.

Lemma elem_of_filter_ne (k x : string) (l : list string) :
  x ∈ List.filter (fun y => negb (bool_decide (y = k))) l <-> x ∈ l /\ x <> k.
Proof.
  rewrite !list_elem_of_In, filter_In, negb_true_iff, bool_decide_eq_false.
  done.
Qed.

Lemma elem_of_first_occurrences ids k : k ∈ first_occurrences ids <-> k ∈ ids.
Proof.
  induction ids as [|x ids IH]; simpl; [done|].
  rewrite !elem_of_cons, elem_of_filter_ne, IH.
  destruct (decide (k = x)); tauto.
Qed.

Lemma NoDup_first_occurrences ids : NoDup (first_occurrences ids).
Proof.
  induction ids as [|x ids IH]; simpl; [constructor|].
  constructor.
  - rewrite elem_of_filter_ne. by intros [_ ?].
  - apply NoDup_ListNoDup, List.NoDup_filter. by apply NoDup_ListNoDup.
Qed.

Lemma filter_ne_id k (l : list string) :
  k ∉ l -> List.filter (fun y => negb (bool_decide (y = k))) l = l.
Proof.
  induction l as [|x l IH]; simpl; [done|].
  intros [Hne Hnin]%not_elem_of_cons.
  rewrite bool_decide_eq_false_2 by congruence. simpl. by rewrite IH.
Qed.

Lemma first_occurrences_snoc ids k :
  first_occurrences (ids ++ [ k ])%list =
  if bool_decide (k ∈ ids) then first_occurrences ids
  else (first_occurrences ids ++ [ k ])%list.
Proof.
  induction ids as [|x ids IH]; cbn [app first_occurrences].
  - destruct (bool_decide_reflect (k ∈ @nil string)) as [H|_]; [|done].
    by apply elem_of_nil in H.
  - rewrite IH. destruct (bool_decide_reflect (k ∈ ids)) as [Hin|Hnin].
    + rewrite bool_decide_eq_true_2; [done|]. by apply elem_of_cons; right.
    + rewrite List.filter_app. cbn [List.filter].
      destruct (bool_decide_reflect (k = x)) as [->|Hne]; cbn [negb].
      * rewrite bool_decide_eq_true_2 by (by apply elem_of_cons; left).
        by rewrite app_nil_r.
      * rewrite bool_decide_eq_false_2; [done|].
        intros [->|?]%elem_of_cons; [congruence|contradiction].
Qed.

Lemma Map_of_ids_keys ids : map fst (Map_of_ids ids) = first_occurrences ids.
Proof.
  induction ids as [|k ids IH] using rev_ind; [done|].
  rewrite Map_of_ids_snoc, Map_set_keys, first_occurrences_snoc, IH.
  destruct (bool_decide_reflect (k ∈ ids)) as [Hin|Hnin].
  - rewrite bool_decide_eq_true_2; [done|]. by apply elem_of_first_occurrences.
  - rewrite bool_decide_eq_false_2; [done|]. by rewrite elem_of_first_occurrences.
Qed.

Lemma Map_entry_get m k i :
  NoDup (map fst m) -> (k, i) ∈ m -> Map_get m k = Some i.
Proof.
  induction m as [|[k0 v0] m IH]; simpl; [by intros _ ?%elem_of_nil|].
  intros [Hnin Hnd]%NoDup_cons [[= -> ->]|Hin]%elem_of_cons.
  - by rewrite bool_decide_eq_true_2.
  - destruct (bool_decide_reflect (k0 = k)) as [->|Hne]; [|by apply IH].
    exfalso. apply Hnin. change k with (fst (k, i)).
    apply list_elem_of_In, in_map, list_elem_of_In, Hin.
Qed.

(** X1.  The index map built from the ids of a table has one entry per
    distinct id, the ids standing in the order of their first occurrence; an
    id is in the map exactly when a row has it; looking an id up gives the
    position of the last row that has it; and the entries met when the map
    is traversed are exactly the pairs that lookup returns. *)
Theorem index_map_lookup (ids : list string) :
  map fst (Map_of_ids ids) = first_occurrences ids /\
  NoDup (map fst (Map_of_ids ids)) /\
  (forall k, Map_has (Map_of_ids ids) k = true <-> k ∈ ids) /\
  (forall k i,
     Map_get (Map_of_ids ids) k = Some i <->
     ids !! i = Some k /\ forall j, ids !! j = Some k -> j <= i) /\
  (forall k i, (k, i) ∈ Map_of_ids ids <-> Map_get (Map_of_ids ids) k = Some i).
Proof.
  split; [apply Map_of_ids_keys|].
  split; [rewrite Map_of_ids_keys; apply NoDup_first_occurrences|].
  split; [apply Map_has_of_ids|]. split; [apply Map_get_of_ids|].
  intros k i. split; [|apply Map_get_elem_of].
  apply Map_entry_get. rewrite Map_of_ids_keys. apply NoDup_first_occurrences.
Qed.

(** ** What inference leaves alone *)

Section InferenceInvariants.
Variables toLowerCase trim : string -> string.

Lemma findCity_unlinked entries cities cityName salon salon' :
  findCity toLowerCase entries cities cityName salon = Some salon' ->
  unlinked salon' = unlinked salon.
Proof.
  induction entries as [|[k i] rest IH]; cbn [findCity].
  - by intros [= <-].
  - destruct (cities !! i) as [city|]; cbn [mbind option_bind]; [|done].
    destruct (bool_decide _); [|exact IH]. by intros [= <-].
Qed.

Lemma findState_unlinked entries states stateName salon salon' :
  findState toLowerCase entries states stateName salon = Some salon' ->
  unlinked salon' = unlinked salon.
Proof.
  induction entries as [|[k i] rest IH]; cbn [findState].
  - by intros [= <-].
  - destruct (states !! i) as [state|]; cbn [mbind option_bind]; [|done].
    destruct (bool_decide _); [|exact IH]. by intros [= <-].
Qed.

Lemma inferLinks_unlinked cm sm cities states salon salon' :
  inferLinks toLowerCase trim cm sm cities states salon = Some salon' ->
  unlinked salon' = unlinked salon.
Proof.
  unfold inferLinks.
  destruct (BeautySalon.address salon) as [address|]; [|by intros [= <-]].
  destruct (truthy (Some address) && _ && _); [|by intros [= <-]].
  set (parts := map trim (split_comma address)).
  destruct (3 <=? length parts)%nat; [|by intros [= <-]].
  destruct (parts !! (length parts - 3)) as [cityName|];
    cbn [mbind option_bind]; [|done].
  destruct (parts !! (length parts - 2)) as [stateName|];
    cbn [mbind option_bind]; [|done].
  destruct (findCity _ _ _ _ _) as [salon1|] eqn:H1; cbn [mbind option_bind]; [|done].
  intros H2. apply findCity_unlinked in H1. apply findState_unlinked in H2.
  congruence.
Qed.

Lemma triggered_inv salon :
  triggered salon = true ->
  exists address,
    BeautySalon.address salon = Some address /\ address <> "" /\
    truthy (BeautySalon.city_id salon) = false /\
    truthy (BeautySalon.state_id salon) = false.
Proof.
  unfold triggered. rewrite !andb_true_iff, !negb_true_iff.
  intros [[Ha Hc] Hs]. destruct (BeautySalon.address salon) as [address|]; [|done].
  exists address. by rewrite <- truthy_Some.
Qed.

Lemma inferLinks_untriggered cm sm cities states salon :
  triggered salon = false ->
  inferLinks toLowerCase trim cm sm cities states salon = Some salon.
Proof. apply inferLinks_not_triggered. Qed.

(** X2.  Backfill and inference change nothing of a salon but its four link
    fields: the twenty other fields of the salon returned are those of the
    salon loaded.  They change nothing at all in a salon that lacks an
    address or already has a [city_id] or a [state_id] (so a salon with one
    of the two ids set never gets the other one inferred); states and
    categories are not touched. *)
Theorem inference_touches_only_links (T : Tables) :
  exists T1,
    annotate toLowerCase trim T = Some T1 /\
    states T1 = states T /\ categories T1 = categories T /\
    Forall2 (fun salon salon' =>
               unlinked salon' = unlinked salon /\
               (triggered salon = false -> salon' = salon))
      (beautySalons T) (beautySalons T1).
Proof.
  destruct (annotate_total toLowerCase trim T)
    as (cities1 & salons1 & Hfill & Hinfer & Hrun).
  eexists. split; [exact Hrun|]. split; [done|]. split; [done|].
  cbn [beautySalons]. apply mapM_Some_1 in Hinfer.
  eapply Forall2_impl; [exact Hinfer|]. intros salon salon' Hstep.
  cbv beta in Hstep. split; [exact (inferLinks_unlinked _ _ _ _ _ _ Hstep)|].
  intros Hoff. rewrite inferLinks_untriggered in Hstep by done. congruence.
Qed.

(** X3.  Inference never makes up a link: after it, the [city_id] and
    [city_name] of a salon are either the ones it was loaded with, or the id
    and name of one city of the table whose name equals, up to case, a
    trimmed comma-separated segment of the salon's address; likewise
    [state_id] and [state_name] with the states. *)
Theorem inference_never_fabricates (T : Tables) :
  exists T1,
    annotate toLowerCase trim T = Some T1 /\
    Forall2 (fun salon salon' =>
               city_link_sound toLowerCase trim (cities T) salon salon' /\
               state_link_sound toLowerCase trim (states T) salon salon')
      (beautySalons T) (beautySalons T1).
Proof.
  destruct (annotate_total toLowerCase trim T)
    as (cities1 & salons1 & Hfill & Hinfer & Hrun).
  eexists. split; [exact Hrun|]. cbn [beautySalons].
  assert (refs_ok (citiesMap (cities T)) (map City.id cities1)) as Hcm.
  { apply addStateNames_ids in Hfill as (-> & _). apply Map_of_ids_refs_ok. }
  assert (refs_ok (statesMap (states T)) (map State.id (states T))) as Hsm
    by apply Map_of_ids_refs_ok.
  apply mapM_Some_1 in Hinfer. apply mapM_Some_1 in Hfill.
  eapply Forall2_impl; [exact Hinfer|]. intros salon salon' Hstep.
  cbv beta in Hstep. unfold city_link_sound, state_link_sound.
  destruct (triggered salon) eqn:Htrig.
  2:{ rewrite inferLinks_untriggered in Hstep by done.
      injection Hstep as <-. split; by left. }
  destruct (triggered_inv salon Htrig) as (address & Haddr & Hne & Hcid & Hsid).
  destruct (inferLinks_triggered toLowerCase trim _ _ _ _ salon address
              Hcm Hsm Haddr Hne Hcid Hsid) as (s' & Hrun' & Hlt & Hge).
  rewrite Hstep in Hrun'. injection Hrun' as <-.
  destruct (Nat.lt_ge_cases (length (map trim (split_comma address))) 3)
    as [Hshort|Hlong].
  { rewrite (Hlt Hshort). split; by left. }
  destruct (Hge Hlong) as (cityName & stateName & HcN & HsN & Hcity & Hstate).
  split.
  - destruct Hcity as [(k & i & city & Hfirst & Hi & Hk & Hid & Hname)|(_ & ? & ?)];
      [|by left].
    right.
    destruct (Forall2_lookup_r _ _ _ _ _ Hfill Hi) as (city0 & Hi0 & Hback).
    apply addStateName_fields in Hback as (Hid0 & Hname0 & _).
    destruct Hfirst as (_ & _ & _ & (c & Hc & Hlow) & _). simpl in Hc.
    assert (c = city) as -> by congruence.
    exists address, cityName, city0. split; [done|].
    split; [by eapply list_elem_of_lookup_2|].
    split; [by eapply list_elem_of_lookup_2|].
    rewrite <- Hname0, <- Hid0. by rewrite Hk.
  - destruct Hstate as [(k & i & state & Hfirst & Hi & Hk & Hid & Hname)|(_ & ? & ?)];
      [|by left].
    right.
    destruct Hfirst as (_ & _ & _ & (s0 & Hs0 & Hlow) & _). simpl in Hs0.
    assert (s0 = state) as -> by congruence.
    exists address, stateName, state. split; [done|].
    split; [by eapply list_elem_of_lookup_2|].
    split; [by eapply list_elem_of_lookup_2|].
    by rewrite Hk.
Qed.
End InferenceInvariants.

(** ** What the whole data pass keeps *)

Lemma Forall2_imap_r {A B : Type} (R : A -> B -> Prop) (f : nat -> A -> B)
    (l : list A) :
  (forall i x, l !! i = Some x -> R x (f i x)) -> Forall2 R l (imap f l).
Proof.
  intros H. apply Forall2_same_length_lookup_2; [by rewrite length_imap|].
  intros i x y Hx Hy. rewrite list_lookup_imap, Hx in Hy.
  injection Hy as <-. by apply H.
Qed.

Lemma Forall2_map_r {A B : Type} (R : A -> B -> Prop) (f : A -> B) (l : list A) :
  (forall i x, l !! i = Some x -> R x (f x)) -> Forall2 R l (map f l).
Proof.
  intros H. apply Forall2_same_length_lookup_2; [by rewrite length_map|].
  intros i x y Hx Hy. change (map f l) with (f <$> l) in Hy.
  rewrite list_lookup_fmap, Hx in Hy. injection Hy as <-. by eapply H.
Qed.

Lemma uncounted_city_bumped m ks i r :
  uncounted_city (bumped City.id City.salon_count City.set_salon_count m ks i r)
  = uncounted_city r.
Proof. unfold bumped. by destruct (hits _ _ _ _ _). Qed.

Lemma uncounted_state_bumped_salons m ks i r :
  uncounted_state
    (bumped State.id State.salon_count State.set_salon_count m ks i r)
  = uncounted_state r.
Proof. unfold bumped. by destruct (hits _ _ _ _ _). Qed.

Lemma uncounted_state_bumped_cities m ks i r :
  uncounted_state
    (bumped State.id State.city_count State.set_city_count m ks i r)
  = uncounted_state r.
Proof. unfold bumped. by destruct (hits _ _ _ _ _). Qed.

Lemma uncounted_category_bumped m ks i r :
  uncounted_category
    (bumped Category.id Category.salon_count Category.set_salon_count m ks i r)
  = uncounted_category r.
Proof. unfold bumped. by destruct (hits _ _ _ _ _). Qed.

(** X4.  The two counting passes change counters and nothing else: the
    salons they return are those that inference returned, and each city,
    state and category is, up to its counters, the row that the backfill
    returned, at the same position. *)
Theorem aggregation_touches_only_counters
    (toLowerCase trim : string -> string) (T : Tables) :
  exists T1 T',
    annotate toLowerCase trim T = Some T1 /\
    resolve toLowerCase trim T = Some T' /\
    beautySalons T' = beautySalons T1 /\
    Forall2 (fun city city' => uncounted_city city' = uncounted_city city)
      (cities T1) (cities T') /\
    Forall2 (fun state state' => uncounted_state state' = uncounted_state state)
      (states T1) (states T') /\
    Forall2 (fun category category' =>
               uncounted_category category' = uncounted_category category)
      (categories T1) (categories T').
Proof.
  destruct (resolve_spec toLowerCase trim T)
    as (cities1 & salons1 & Hann & _ & Hrun).
  eexists _, _. split; [exact Hann|]. split; [exact Hrun|].
  cbn [beautySalons cities states categories]. split; [done|].
  split; [|split].
  - apply Forall2_imap_r. intros. apply uncounted_city_bumped.
  - apply Forall2_same_length_lookup_2; [by rewrite !length_imap|].
    intros i x y Hx Hy. rewrite !list_lookup_imap, Hx in Hy.
    injection Hy as <-.
    by rewrite uncounted_state_bumped_cities, uncounted_state_bumped_salons.
  - apply Forall2_imap_r. intros. apply uncounted_category_bumped.
Qed.

Lemma inferAllLinks_ids toLowerCase trim cm sm cities states salons salons' :
  inferAllLinks toLowerCase trim cm sm cities states salons = Some salons' ->
  map BeautySalon.id salons' = map BeautySalon.id salons.
Proof.
  intros H%mapM_Some_1. induction H as [|s s' l l' Hs _ IH]; [done|].
  apply inferLinks_unlinked in Hs.
  assert (BeautySalon.id s' = BeautySalon.id s) as Hid
    by exact (f_equal BeautySalon.id Hs).
  simpl. by rewrite Hid, IH.
Qed.

(** X5.  The data pass keeps every row.  For tables whose rows carry the
    cells that their interfaces declare without a question mark (the record
    types above: a salon its [id] and [title], a city its [id] and [city],
    a state its [id] and [state], a category its [id] and [category]), it
    returns tables and a projection in which every loaded salon, city, state
    and category stands once, at its position and under its id; no row is
    dropped, none is added and none changes places, whatever the links
    between the rows are.  (A row that lacks its name cell is outside the
    record types; nothing is said about it here.) *)
Theorem generateHTML_keeps_every_row
    (toLowerCase trim slugify : string -> string) (T : Tables) :
  exists T' P,
    generateHTML toLowerCase trim slugify T = Some (T', P) /\
    map BeautySalon.id (beautySalons T') = map BeautySalon.id (beautySalons T) /\
    map City.id (cities T') = map City.id (cities T) /\
    map State.id (states T') = map State.id (states T) /\
    map Category.id (categories T') = map Category.id (categories T) /\
    map ProcessedSalon.id (salons_json P) = map BeautySalon.id (beautySalons T) /\
    map ProcessedCity.id (cities_json P) = map City.id (cities T) /\
    map ProcessedState.id (states_json P) = map State.id (states T) /\
    map ProcessedCategory.id (categories_json P)
      = map Category.id (categories T).
Proof.
  destruct (annotate_total toLowerCase trim T)
    as (cities1 & salons1 & Hfill & Hinfer & Hann).
  destruct (resolve_spec toLowerCase trim T)
    as (cities1' & salons1' & Hann' & _ & Hrun).
  rewrite Hann in Hann'. injection Hann' as <- <-.
  apply inferAllLinks_ids in Hinfer. apply addStateNames_ids in Hfill as (Hids & _).
  eexists _, _. split; [unfold generateHTML; rewrite Hrun; reflexivity|].
  cbn [project beautySalons cities states categories salons_json cities_json
         states_json categories_json].
  unfold processedSalons, processedCities, processedStates, processedCategories.
  rewrite !map_map. cbn [processSalon processCity processState processCategory
    ProcessedSalon.id ProcessedCity.id ProcessedState.id ProcessedCategory.id].
  rewrite !map_key_bumped by done. by rewrite Hinfer, Hids.
Qed.

(** ** Every link is counted once *)

Section Totals.
Context {A : Type}.
Variables (key : A -> string) (get : A -> option nat) (set : A -> nat -> A).
Hypothesis key_set : forall r n, key (set r n) = key r.
Hypothesis get_set : forall r n, get (set r n) = Some n.
Hypothesis set_set : forall r n n', set (set r n) n' = set r n'.

Lemma total_insert (rows : list A) i r r' :
  rows !! i = Some r ->
  total get (<[i := r']> rows) + or_zero (get r)
  = total get rows + or_zero (get r').
Proof.
  unfold total. revert i. induction rows as [|x rows IH]; intros [|i] Hi;
    simplify_eq/=; [lia|].
  specialize (IH i Hi). lia.
Qed.

Lemma bump_total m k rows :
  refs_ok m (map key rows) ->
  exists rows',
    bump get set m k rows = Some rows' /\
    map key rows' = map key rows /\
    total get rows' = total get rows + (if Map_has m k then 1 else 0).
Proof.
  intros Hok. unfold bump, Map_has.
  destruct (Map_get m k) as [i|] eqn:Hget; cbn [mbind option_bind].
  - destruct (Map_get_row_ok key m rows k i Hok Hget) as (r & Hr & _).
    rewrite Hr. cbn [mbind option_bind]. eexists. split; [done|]. split.
    + change (map key ?l) with (key <$> l).
      rewrite list_fmap_insert, key_set. apply list_insert_id.
      by rewrite list_lookup_fmap, Hr.
    + pose proof (total_insert rows i r (set r (or_zero (get r) + 1)) Hr) as Hsum.
      rewrite get_set in Hsum. simpl in Hsum. lia.
  - exists rows. split; [done|]. split; [done|]. lia.
Qed.

Lemma bumps_total m ks rows :
  refs_ok m (map key rows) ->
  exists rows',
    bumps get set m ks rows = Some rows' /\
    total get rows' = total get rows + length (List.filter (Map_has m) ks).
Proof.
  revert rows. induction ks as [|k ks IH]; intros rows Hok.
  - exists rows. split; [done|]. simpl. lia.
  - destruct (bump_total m k rows Hok) as (rows1 & Hrun1 & Hkeys & Hsum1).
    destruct (IH rows1) as (rows' & Hrun & Hsum); [by rewrite Hkeys|].
    exists rows'. cbn [bumps]. rewrite Hrun1. cbn [mbind option_bind].
    split; [done|]. rewrite Hsum, Hsum1. cbn [List.filter].
    destruct (Map_has m k); simpl; lia.
Qed.

(** The rows that the counting leaves sum up to one per counted key that is
    in the index map. *)
Lemma total_bumped m ks rows :
  refs_ok m (map key rows) ->
  total get (imap (bumped key get set m ks) rows)
  = total get rows + length (List.filter (Map_has m) ks).
Proof.
  intros Hok. destruct (bumps_total m ks rows Hok) as (rows' & Hrun & Hsum).
  rewrite (bumps_spec key) in Hrun by done. by injection Hrun as <-.
Qed.
End Totals.

Lemma total_fresh {A : Type} (get : A -> option nat) (rows : list A) :
  Forall (fun r => get r = None) rows -> total get rows = 0.
Proof.
  unfold total. induction 1 as [|r rows Hr _ IH]; [done|].
  simpl. by rewrite Hr, IH.
Qed.

Lemma total_imap_ext {A : Type} (get : A -> option nat) (f : nat -> A -> A)
    (rows : list A) :
  (forall i r, get (f i r) = get r) -> total get (imap f rows) = total get rows.
Proof.
  intros Hf. unfold total. f_equal.
  apply list_eq. intros i. change (map ?g ?l) with (g <$> l).
  rewrite !list_lookup_fmap, list_lookup_imap.
  destruct (rows !! i); simpl; [|done]. by rewrite Hf.
Qed.

Lemma filter_has_of_ids ids (ks : list string) :
  List.filter (Map_has (Map_of_ids ids)) ks
  = List.filter (fun k => bool_decide (k ∈ ids)) ks.
Proof.
  apply filter_ext. intros k.
  destruct (bool_decide_reflect (k ∈ ids)) as [Hin|Hnin].
  - by apply Map_has_of_ids.
  - destruct (Map_has (Map_of_ids ids) k) eqn:Hhas; [|done].
    by apply Map_has_of_ids in Hhas.
Qed.

Lemma filter_set_keys {B : Type} (f : B -> option string) ids (l : list B) :
  length (List.filter (fun k => bool_decide (k ∈ ids))
            (flat_map (fun x => set_keys (f x)) l))
  = length (List.filter (fun x => links_to ids (f x)) l).
Proof.
  induction l as [|x l IH]; [done|].
  cbn [flat_map List.filter]. rewrite List.filter_app, length_app, IH.
  unfold set_keys, links_to. destruct (f x) as [k|]; [|done].
  destruct (truthy (Some k)); [|done]. cbn [List.filter andb].
  by destruct (bool_decide (k ∈ ids)).
Qed.

(** X6.  On tables loaded with unset counters the counts add up to the
    links: the [salon_count]s of all cities sum to the number of salons
    whose [city_id] is non-empty and is the id of a city; those of all
    states to the number of salons whose [state_id] is non-empty and is the
    id of a state; the [city_count]s of all states to the number of cities
    whose [state_id] is non-empty and is the id of a state; and the
    [salon_count]s of all categories to the number of comma-split segments
    of the salons' [category_ids] that are ids of categories.  So a link is
    counted once, also when several rows were loaded with its id. *)
Theorem counts_add_up (toLowerCase trim : string -> string) (T : Tables) :
  Forall (fun city => City.salon_count city = None) (cities T) ->
  Forall (fun state => State.salon_count state = None /\
                       State.city_count state = None) (states T) ->
  Forall (fun category => Category.salon_count category = None) (categories T) ->
  exists T',
    resolve toLowerCase trim T = Some T' /\
    total City.salon_count (cities T')
    = length (List.filter
                (fun salon => links_to (map City.id (cities T))
                                (BeautySalon.city_id salon))
                (beautySalons T')) /\
    total State.salon_count (states T')
    = length (List.filter
                (fun salon => links_to (map State.id (states T))
                                (BeautySalon.state_id salon))
                (beautySalons T')) /\
    total State.city_count (states T')
    = length (List.filter
                (fun city => links_to (map State.id (states T))
                               (City.state_id city))
                (cities T')) /\
    total Category.salon_count (categories T')
    = length (List.filter
                (fun k => bool_decide (k ∈ map Category.id (categories T)))
                (categoryKeys (beautySalons T'))).
Proof.
  intros Hcities Hstates Hcategories.
  destruct (resolve_spec toLowerCase trim T)
    as (cities1 & salons1 & _ & Hrows & Hrun).
  eexists. split; [exact Hrun|].
  cbn [beautySalons cities states categories].
  assert (map City.id cities1 = map City.id (cities T)) as Hids.
  { clear -Hrows. induction Hrows as [|c c1 l l1 (Hid & _) _ IH]; [done|].
    simpl. by rewrite Hid, IH. }
  assert (Forall (fun c => City.salon_count c = None) cities1) as Hfresh1.
  { clear -Hrows Hcities. induction Hrows as [|c c1 l l1 (_ & _ & Hc) _ IH];
      [done|]. inversion Hcities; subst. constructor; [congruence|auto]. }
  split; [|split; [|split]].
  - rewrite (total_bumped City.id) by
      (done || (rewrite Hids; apply Map_of_ids_refs_ok)).
    rewrite total_fresh by done. unfold citiesMap.
    by rewrite filter_has_of_ids, (filter_set_keys BeautySalon.city_id).
  - rewrite total_imap_ext by apply salon_count_bumped_city_count.
    rewrite (total_bumped State.id) by (done || apply Map_of_ids_refs_ok).
    rewrite total_fresh by (eapply Forall_impl; [exact Hstates|]; by intros ? [? _]).
    unfold statesMap.
    by rewrite filter_has_of_ids, (filter_set_keys BeautySalon.state_id).
  - rewrite (total_bumped State.id)
      by (done || (rewrite map_key_bumped by done; apply Map_of_ids_refs_ok)).
    rewrite total_imap_ext by apply city_count_bumped_salon_count.
    rewrite total_fresh by (eapply Forall_impl; [exact Hstates|]; by intros ? [_ ?]).
    unfold statesMap.
    by rewrite filter_has_of_ids, (filter_set_keys City.state_id).
  - rewrite (total_bumped Category.id) by (done || apply Map_of_ids_refs_ok).
    rewrite total_fresh by done. unfold categoriesMap.
    by rewrite filter_has_of_ids.
Qed.

Lemma counts_add_up_witness :
  exists T',
    resolve ascii_toLowerCase ascii_trim Fixture.tables = Some T' /\
    total City.salon_count (cities T')
    = length (List.filter
                (fun salon => links_to (map City.id (cities Fixture.tables))
                                (BeautySalon.city_id salon))
                (beautySalons T')) /\
    total State.salon_count (states T')
    = length (List.filter
                (fun salon => links_to (map State.id (states Fixture.tables))
                                (BeautySalon.state_id salon))
                (beautySalons T')) /\
    total State.city_count (states T')
    = length (List.filter
                (fun city => links_to (map State.id (states Fixture.tables))
                               (City.state_id city))
                (cities T')) /\
    total Category.salon_count (categories T')
    = length (List.filter
                (fun k => bool_decide
                            (k ∈ map Category.id (categories Fixture.tables)))
                (categoryKeys (beautySalons T'))).
Proof.
  apply (counts_add_up ascii_toLowerCase ascii_trim Fixture.tables).
  - repeat constructor.
  - repeat constructor.
  - repeat constructor.
Defined.

(** ** Aggregated counts against the projected lists *)

Lemma or_zero_tally n : or_zero (tally n) = n.
Proof. by destruct n. Qed.

Lemma filter_length_impl {A : Type} (f g : A -> bool) (l : list A) :
  (forall x, f x = true -> g x = true) ->
  length (List.filter f l) <= length (List.filter g l).
Proof.
  intros Hfg. induction l as [|x l IH]; simpl; [done|].
  destruct (f x) eqn:Hf.
  - rewrite (Hfg x Hf). simpl. lia.
  - destruct (g x); simpl; lia.
Qed.

Lemma filter_map_length {A B : Type} (f : B -> bool) (g : A -> B) (l : list A) :
  length (List.filter f (map g l)) = length (List.filter (fun x => f (g x)) l).
Proof.
  induction l as [|x l IH]; simpl; [done|].
  destruct (f (g x)); simpl; by rewrite IH.
Qed.

Lemma occurrences_elem_of k (l : list string) : k ∈ l -> 1 <= occurrences k l.
Proof.
  induction l as [|x l IH]; [by intros ?%elem_of_nil|].
  rewrite occurrences_cons. intros [->|Hin]%elem_of_cons.
  - rewrite bool_decide_eq_true_2 by done. lia.
  - specialize (IH Hin). lia.
Qed.

Lemma salon_ids_le_occurrences slugify category (salons : list BeautySalon.t) :
  length (List.filter (inCategory category) (map (processSalon slugify) salons))
  <= occurrences (Category.id category) (categoryKeys salons).
Proof.
  induction salons as [|salon salons IH]; [done|].
  unfold categoryKeys in *. cbn [map List.filter flat_map].
  rewrite occurrences_app.
  destruct (inCategory category (processSalon slugify salon)) eqn:Hin; [|lia].
  unfold inCategory, includes in Hin. cbn [processSalon ProcessedSalon.category_ids] in Hin.
  apply bool_decide_eq_true, occurrences_elem_of in Hin. simpl. lia.
Qed.

(** X7.  On tables loaded with unset counters the aggregated counts never
    exceed the projected lists of cities and states: a city's [salon_count]
    is at most the length of its projected [salon_ids], and a state's
    [salon_count] and [city_count] are at most the lengths of its projected
    [salon_ids] and [city_ids]. *)
Theorem aggregated_counts_below_projected_lists
    (toLowerCase trim slugify : string -> string) (T : Tables) :
  Forall (fun city => City.salon_count city = None) (cities T) ->
  Forall (fun state => State.salon_count state = None /\
                       State.city_count state = None) (states T) ->
  Forall (fun category => Category.salon_count category = None) (categories T) ->
  exists T' P,
    generateHTML toLowerCase trim slugify T = Some (T', P) /\
    Forall2 (fun city pcity =>
               or_zero (City.salon_count city)
               <= length (ProcessedCity.salon_ids pcity))
      (cities T') (cities_json P) /\
    Forall2 (fun state pstate =>
               or_zero (State.salon_count state)
               <= length (ProcessedState.salon_ids pstate) /\
               or_zero (State.city_count state)
               <= length (ProcessedState.city_ids pstate))
      (states T') (states_json P).
Proof.
  intros Hcities Hstates Hcategories.
  destruct (resolve_counts toLowerCase trim T Hcities Hstates Hcategories)
    as (T' & Hrun & Hc & Hs & _).
  eexists _, _. split; [unfold generateHTML; rewrite Hrun; reflexivity|].
  cbn [project cities_json states_json]. split.
  - apply Forall2_map_r. intros i city Hi.
    destruct (Hc i city Hi) as [Hheld Hfree].
    cbn [processCity ProcessedCity.salon_ids]. rewrite length_map.
    destruct (decide (Map_get (citiesMap (cities T)) (City.id city) = Some i))
      as [Hyes|Hno].
    + rewrite (Hheld Hyes), or_zero_tally. unfold processedSalons.
      rewrite filter_map_length. apply filter_length_impl.
      intros salon Hset. unfold inCity.
      cbn [processSalon ProcessedSalon.city_id]. by rewrite Hset.
    + rewrite (Hfree Hno). simpl. lia.
  - apply Forall2_map_r. intros i state Hi.
    destruct (Hs i state Hi) as [Hheld Hfree].
    cbn [processState ProcessedState.salon_ids ProcessedState.city_ids].
    unfold cityIdsForState at 2. rewrite !length_map.
    destruct (decide (Map_get (statesMap (states T)) (State.id state) = Some i))
      as [Hyes|Hno].
    + destruct (Hheld Hyes) as [-> ->]. rewrite !or_zero_tally. split.
      * unfold processedSalons. rewrite filter_map_length.
        apply filter_length_impl. intros salon Hset. unfold inState.
        cbn [processSalon ProcessedSalon.state_id]. by rewrite Hset.
      * unfold processedCities. rewrite filter_map_length.
        apply filter_length_impl. intros city Hset. unfold cityOfState.
        cbn [processCity ProcessedCity.state_id].
        apply andb_true_iff in Hset as [_ Hset]. exact Hset.
    + destruct (Hfree Hno) as [-> ->]. simpl. lia.
Qed.

Lemma aggregated_counts_below_projected_lists_witness :
  exists T' P,
    generateHTML ascii_toLowerCase ascii_trim Fixture.slug Fixture.tables
      = Some (T', P) /\
    Forall2 (fun city pcity =>
               or_zero (City.salon_count city)
               <= length (ProcessedCity.salon_ids pcity))
      (cities T') (cities_json P) /\
    Forall2 (fun state pstate =>
               or_zero (State.salon_count state)
               <= length (ProcessedState.salon_ids pstate) /\
               or_zero (State.city_count state)
               <= length (ProcessedState.city_ids pstate))
      (states T') (states_json P).
Proof.
  apply (aggregated_counts_below_projected_lists
           ascii_toLowerCase ascii_trim Fixture.slug Fixture.tables).
  - repeat constructor.
  - repeat constructor.
  - repeat constructor.
Defined.

(** X8.  For a category it is the other way round: on tables loaded with
    unset counters, the projected [salon_ids] of a category that the
    category index holds is at most as long as the category's aggregated
    [salon_count], since the count takes an id listed twice by one salon
    twice and the projection takes the salon once. *)
Theorem category_salon_ids_below_count
    (toLowerCase trim slugify : string -> string) (T : Tables) :
  Forall (fun city => City.salon_count city = None) (cities T) ->
  Forall (fun state => State.salon_count state = None /\
                       State.city_count state = None) (states T) ->
  Forall (fun category => Category.salon_count category = None) (categories T) ->
  exists T' P,
    generateHTML toLowerCase trim slugify T = Some (T', P) /\
    forall i category pcategory,
      categories T' !! i = Some category ->
      categories_json P !! i = Some pcategory ->
      Map_get (categoriesMap (categories T)) (Category.id category) = Some i ->
      ProcessedCategory.id pcategory = Category.id category /\
      length (ProcessedCategory.salon_ids pcategory)
      <= or_zero (Category.salon_count category).
Proof.
  intros Hcities Hstates Hcategories.
  destruct (resolve_counts toLowerCase trim T Hcities Hstates Hcategories)
    as (T' & Hrun & _ & _ & Hk & _).
  eexists _, _. split; [unfold generateHTML; rewrite Hrun; reflexivity|].
  cbn [project categories_json]. intros i category pcategory Hi Hp Hheld.
  unfold processedCategories in Hp. change (map ?f ?l) with (f <$> l) in Hp.
  rewrite list_lookup_fmap, Hi in Hp. injection Hp as <-.
  split; [reflexivity|].
  destruct (Hk i category Hi) as [Hcount _]. rewrite (Hcount Hheld), or_zero_tally.
  cbn [processCategory ProcessedCategory.salon_ids]. rewrite length_map.
  apply salon_ids_le_occurrences.
Qed.

Lemma category_salon_ids_below_count_witness :
  exists T' P,
    generateHTML ascii_toLowerCase ascii_trim Fixture.slug Fixture.tables
      = Some (T', P) /\
    forall i category pcategory,
      categories T' !! i = Some category ->
      categories_json P !! i = Some pcategory ->
      Map_get (categoriesMap (categories Fixture.tables)) (Category.id category)
        = Some i ->
      ProcessedCategory.id pcategory = Category.id category /\
      length (ProcessedCategory.salon_ids pcategory)
      <= or_zero (Category.salon_count category).
Proof.
  apply (category_salon_ids_below_count
           ascii_toLowerCase ascii_trim Fixture.slug Fixture.tables).
  - repeat constructor.
  - repeat constructor.
  - repeat constructor.
Defined.

(** ** The city and category projections *)

Lemma inCity_spec lower city salon :
  inCity lower city salon = true <-> salon_of_city lower city salon.
Proof.
  unfold inCity, salon_of_city. rewrite <- set_to_spec, <- named_like_spec.
  destruct (set_to _ _); [by split; auto|].
  destruct (named_like _ _ _); [by split; auto|].
  split; [done|]. by intros [?|?].
Qed.

(** X9.  For every projected city record, [salon_ids] lists, in order and
    once each, the ids of exactly the projected salons whose [city_id] is
    set (non-empty) and equals the city's id, or whose [city_name] is set
    and equals the city's name up to case; the record keeps the id, name,
    [state_id] and [state_name] of the city row. *)
Theorem city_projection (toLowerCase slugify : string -> string)
    (salons : list ProcessedSalon.t) (city : City.t) :
  exists citySalons,
    picks (salon_of_city toLowerCase city) salons citySalons /\
    ProcessedCity.salon_ids (processCity toLowerCase slugify salons city)
      = map ProcessedSalon.id citySalons /\
    ProcessedCity.id (processCity toLowerCase slugify salons city)
      = City.id city /\
    ProcessedCity.city (processCity toLowerCase slugify salons city)
      = City.city city /\
    ProcessedCity.state_id (processCity toLowerCase slugify salons city)
      = City.state_id city /\
    ProcessedCity.state_name (processCity toLowerCase slugify salons city)
      = City.state_name city.
Proof.
  exists (List.filter (inCity toLowerCase city) salons).
  split; [|by repeat split].
  apply picks_filter. intros salon. apply inCity_spec.
Qed.

(** X10.  For every projected category record, [salon_ids] lists, in order
    and once each, the ids of exactly the projected salons whose split
    [category_ids] contain the category's id as one whole segment; a salon
    that lists the id twice is still listed once. *)
Theorem category_projection (slugify : string -> string)
    (salons : list ProcessedSalon.t) (category : Category.t) :
  exists categorySalons,
    picks (salon_of_category category) salons categorySalons /\
    ProcessedCategory.salon_ids (processCategory slugify salons category)
      = map ProcessedSalon.id categorySalons /\
    length (ProcessedCategory.salon_ids (processCategory slugify salons category))
      <= length salons /\
    ProcessedCategory.id (processCategory slugify salons category)
      = Category.id category.
Proof.
  exists (List.filter (inCategory category) salons).
  assert (picks (salon_of_category category) salons
            (List.filter (inCategory category) salons)) as Hpicks.
  { apply picks_filter. intros salon. unfold inCategory, includes.
    apply bool_decide_eq_true. }
  split; [done|]. split; [done|]. split; [|done].
  cbn [processCategory ProcessedCategory.salon_ids]. rewrite length_map.
  by eapply picks_length.
Qed.

(** ** The pages against the projected lists *)

Lemma sublist_filter_impl {A : Type} (f g : A -> bool) (l : list A) :
  (forall x, f x = true -> g x = true) ->
  sublist (List.filter f l) (List.filter g l).
Proof.
  intros Hfg. induction l as [|x l IH]; simpl; [constructor|].
  destruct (f x) eqn:Hf.
  - rewrite (Hfg x Hf). by apply sublist_skip.
  - destruct (g x); [by apply sublist_cons|done].
Qed.

Lemma set_to_nonempty o v : v <> "" -> set_to o v = bool_decide (o = Some v).
Proof.
  intros Hne. unfold set_to.
  destruct (bool_decide_reflect (o = Some v)) as [->|]; [|by rewrite andb_false_r].
  apply truthy_Some in Hne. by rewrite Hne.
Qed.

Lemma set_to_implies o v : set_to o v = true -> bool_decide (o = Some v) = true.
Proof. unfold set_to. by intros [_ ?]%andb_true_iff. Qed.

(** X11.  The salons listed on a city's page and the [salon_ids] of the
    city's projected record come from two filters that differ in one guard.
    The page always lists every salon of [salon_ids], in the same order; and
    when the city's id is non-empty the two agree: the ids of the salons on
    the page are exactly [salon_ids], and the provider count shown for the
    city on its state's page is the length of [salon_ids]. *)
Theorem city_page_matches_projection (toLowerCase slugify : string -> string)
    (salons : list ProcessedSalon.t) (city : City.t) :
  sublist
    (ProcessedCity.salon_ids (processCity toLowerCase slugify salons city))
    (map ProcessedSalon.id
       (citySalons toLowerCase salons
          (processCity toLowerCase slugify salons city))) /\
  (City.id city <> "" ->
   map ProcessedSalon.id
     (citySalons toLowerCase salons (processCity toLowerCase slugify salons city))
   = ProcessedCity.salon_ids (processCity toLowerCase slugify salons city) /\
   citySalonsCount toLowerCase salons
     (processCity toLowerCase slugify salons city)
   = length (ProcessedCity.salon_ids
               (processCity toLowerCase slugify salons city))).
Proof.
  unfold citySalonsCount, citySalons.
  cbn [processCity ProcessedCity.salon_ids ProcessedCity.id ProcessedCity.city].
  split.
  - apply (fmap_sublist ProcessedSalon.id), sublist_filter_impl. intros salon. unfold inCity.
    destruct (set_to _ _) eqn:Hset.
    + intros _. by rewrite (set_to_implies _ _ Hset).
    + destruct (named_like _ _ _); [by rewrite orb_true_r|done].
  - intros Hne.
    assert (List.filter
              (fun salon =>
                 bool_decide (ProcessedSalon.city_id salon = Some (City.id city))
                 || named_like toLowerCase (ProcessedSalon.city_name salon)
                      (City.city city)) salons
            = List.filter (inCity toLowerCase city) salons) as ->.
    { apply filter_ext. intros salon. unfold inCity.
      rewrite (set_to_nonempty _ _ Hne).
      destruct (bool_decide _); [done|]. by destruct (named_like _ _ _). }
    split; [done|]. by rewrite length_map.
Qed.



(** ** Cross-links of the projection *)

Lemma elem_of_map_filter {A : Type} (g : A -> string) (f : A -> bool)
    (l : list A) x :
  x ∈ map g (List.filter f l) -> x ∈ map g l.
Proof.
  rewrite !list_elem_of_In, !in_map_iff.
  intros (a & <- & [Ha _]%filter_In). eauto.
Qed.

Lemma processedSalons_ids slugify (salons : list BeautySalon.t) :
  map ProcessedSalon.id (processedSalons slugify salons)
  = map BeautySalon.id salons.
Proof. unfold processedSalons. by rewrite map_map. Qed.

(** X13.  The projection has no dangling id: every id in the [salon_ids]
    of a projected city, state or category is the id of a loaded salon, and
    every id in the [city_ids] of a projected state is the id of a loaded
    city. *)
Theorem projection_ids_refer_to_rows (toLowerCase slugify : string -> string)
    (T : Tables) :
  Forall (fun r => forall x, x ∈ ProcessedCity.salon_ids r ->
                             x ∈ map BeautySalon.id (beautySalons T))
    (cities_json (project toLowerCase slugify T)) /\
  Forall (fun r =>
            (forall x, x ∈ ProcessedState.salon_ids r ->
                       x ∈ map BeautySalon.id (beautySalons T)) /\
            (forall x, x ∈ ProcessedState.city_ids r ->
                       x ∈ map City.id (cities T)))
    (states_json (project toLowerCase slugify T)) /\
  Forall (fun r => forall x, x ∈ ProcessedCategory.salon_ids r ->
                             x ∈ map BeautySalon.id (beautySalons T))
    (categories_json (project toLowerCase slugify T)).
Proof.
  cbn [project cities_json states_json categories_json].
  unfold processedCities, processedStates, processedCategories.
  repeat split; apply Forall_forall; intros r Hr;
    apply list_elem_of_In, in_map_iff in Hr as (row & <- & _).
  - intros x Hx%elem_of_map_filter. by rewrite processedSalons_ids in Hx.
  - split.
    + intros x Hx%elem_of_map_filter. by rewrite processedSalons_ids in Hx.
    + intros x Hx%elem_of_map_filter.
      by rewrite map_map in Hx.
  - intros x Hx%elem_of_map_filter. by rewrite processedSalons_ids in Hx.
Qed.

(** X14.  A salon whose [city_id] is the non-empty id of a city is listed
    in the projected [salon_ids] of that city and of every state whose id is
    the city's [state_id], whether or not the salon itself carries a
    [state_id] or a [state_name]. *)
Theorem salon_of_city_is_listed_under_state
    (toLowerCase slugify : string -> string) (T : Tables)
    (salon : BeautySalon.t) (city : City.t) (state : State.t) :
  salon ∈ beautySalons T -> city ∈ cities T -> state ∈ states T ->
  BeautySalon.city_id salon = Some (City.id city) -> City.id city <> "" ->
  City.state_id city = Some (State.id state) ->
  exists pcity pstate,
    pcity ∈ cities_json (project toLowerCase slugify T) /\
    pstate ∈ states_json (project toLowerCase slugify T) /\
    ProcessedCity.id pcity = City.id city /\
    ProcessedState.id pstate = State.id state /\
    City.id city ∈ ProcessedState.city_ids pstate /\
    BeautySalon.id salon ∈ ProcessedCity.salon_ids pcity /\
    BeautySalon.id salon ∈ ProcessedState.salon_ids pstate.
Proof.
  intros Hsalon Hcity Hstate Hcid Hne Hsid.
  set (psalons := processedSalons slugify (beautySalons T)).
  set (pcities := processedCities toLowerCase slugify psalons (cities T)).
  exists (processCity toLowerCase slugify psalons city),
         (processState toLowerCase slugify psalons pcities state).
  cbn [project cities_json states_json].
  assert (processSalon slugify salon ∈ psalons) as Hps.
  { apply list_elem_of_In, in_map, list_elem_of_In, Hsalon. }
  assert (City.id city ∈ cityIdsForState pcities state) as Hcityid.
  { unfold cityIdsForState.
    change (City.id city)
      with (ProcessedCity.id (processCity toLowerCase slugify psalons city)).
    apply list_elem_of_In, in_map, filter_In. split.
    - apply in_map, list_elem_of_In, Hcity.
    - unfold cityOfState. apply bool_decide_eq_true_2. exact Hsid. }
  split; [apply list_elem_of_In, in_map, list_elem_of_In, Hcity|].
  split; [apply list_elem_of_In, in_map, list_elem_of_In, Hstate|].
  split; [done|]. split; [done|]. split; [exact Hcityid|]. split.
  - cbn [processCity ProcessedCity.salon_ids].
    change (BeautySalon.id salon)
      with (ProcessedSalon.id (processSalon slugify salon)).
    apply list_elem_of_In, in_map, filter_In. split; [by apply list_elem_of_In|].
    apply inCity_spec. left. split; [exact Hcid|exact Hne].
  - cbn [processState ProcessedState.salon_ids].
    change (BeautySalon.id salon)
      with (ProcessedSalon.id (processSalon slugify salon)).
    apply list_elem_of_In, in_map, filter_In. split; [by apply list_elem_of_In|].
    apply inState_spec. right. right. exists (City.id city).
    split; [split; [exact Hcid|exact Hne]|exact Hcityid].
Qed.

Lemma salon_of_city_is_listed_under_state_witness :
  exists pcity pstate,
    pcity ∈ cities_json (project ascii_toLowerCase Fixture.slug Fixture.tables) /\
    pstate ∈ states_json (project ascii_toLowerCase Fixture.slug Fixture.tables) /\
    ProcessedCity.id pcity = City.id Fixture.springfield /\
    ProcessedState.id pstate = State.id Fixture.illinois /\
    City.id Fixture.springfield ∈ ProcessedState.city_ids pstate /\
    BeautySalon.id Fixture.salonA ∈ ProcessedCity.salon_ids pcity /\
    BeautySalon.id Fixture.salonA ∈ ProcessedState.salon_ids pstate.
Proof.
  apply (salon_of_city_is_listed_under_state ascii_toLowerCase Fixture.slug
           Fixture.tables Fixture.salonA Fixture.springfield Fixture.illinois).
  - apply elem_of_cons. by left.
  - apply elem_of_cons. by left.
  - apply elem_of_cons. by left.
  - reflexivity.
  - discriminate.
  - reflexivity.
Defined.

(** ** The sitemap index and the files it lists *)

Lemma string_of_nat_inj n m : string_of_nat n = string_of_nat m -> n = m.
Proof.
  unfold string_of_nat. intros H.
  apply DecimalNat.Unsigned.to_uint_inj.
  pose proof (NilEmpty.usu (Nat.to_uint n)) as Hn.
  rewrite H, NilEmpty.usu in Hn. congruence.
Qed.

Lemma sitemapIndex_loop (now : nat -> string) (names : list string) xml k :
  fold_left (fun '(xml, k) sitemap =>
               (xml ++ sitemapIndexEntry (now k) sitemap, S k))
    names (xml, k)
  = (xml ++ join_strings
              (imap (fun j sitemap => sitemapIndexEntry (now (k + j)) sitemap)
                 names),
     k + length names).
Proof.
  revert xml k. induction names as [|name names IH]; intros xml k.
  - simpl. by rewrite append_nil_r_s, Nat.add_0_r.
  - cbn [fold_left]. rewrite IH. cbn [imap length].
    unfold join_strings at 2. cbn [fold_right]. fold (join_strings).
    rewrite append_assoc_s, Nat.add_0_r. f_equal.
    + do 2 f_equal. unfold join_strings. f_equal.
      apply imap_ext. intros j ? _. simpl. f_equal. f_equal. lia.
    + lia.
Qed.

Lemma companySitemaps_length salons :
  length (companySitemaps salons) = chunk_count (length salons).
Proof.
  unfold companySitemaps.
  pose proof (chunk_count_spec (length salons)) as [_ Hhi].
  pose proof (companySitemapsFrom_spec salons (length salons) 0) as H.
  change (200 * 0) with 0 in H. rewrite H by lia.
  by rewrite length_map, length_seq, Nat.sub_0_r.
Qed.

Lemma companySitemaps_filenames salons :
  map fst (companySitemaps salons) =
  map (fun k => "companies-sitemap" ++ string_of_nat (k + 1) ++ ".xml")
    (seq 0 (chunk_count (length salons))).
Proof.
  unfold companySitemaps.
  pose proof (chunk_count_spec (length salons)) as [_ Hhi].
  pose proof (companySitemapsFrom_spec salons (length salons) 0) as H.
  change (200 * 0) with 0 in H. rewrite H by lia.
  rewrite Nat.sub_0_r, map_map. reflexivity.
Qed.

(** X15.  The sitemap index lists the sitemap files and nothing else: its
    [<sitemap>] entries are, in the order of writing, the company sitemap
    files that were written, then the city sitemap and the state sitemap,
    which are exactly the files written into the [sitemaps] directory:
    [ceil (n / 200) + 2] entries for [n] salons, the entry of 0-based
    position [k] carrying the [k]-th time stamp taken. *)
Theorem sitemap_index_lists_written_files (now : nat -> string)
    (outputDir : string) (salons : list ProcessedSalon.t)
    (cities : list ProcessedCity.t) (states : list ProcessedState.t) :
  exists files indexXml,
    files = (map fst (companySitemaps salons)
             ++ [ "cities-sitemap.xml"; "states-sitemap.xml" ])%list /\
    length files = chunk_count (length salons) + 2 /\
    map fst (sitemapXmlWrites now outputDir salons cities states)
    = (map (fun file => [ outputDir; "sitemaps"; file ]) files
       ++ [ [ outputDir; "sitemap.xml" ] ])%list /\
    last (sitemapXmlWrites now outputDir salons cities states)
    = Some ([ outputDir; "sitemap.xml" ], indexXml) /\
    indexXml =
      xmlHeader ++
      "<sitemapindex xmlns=" ++ dq
        ++ "http://www.sitemaps.org/schemas/sitemap/0.9" ++ dq ++ ">" ++ nl
      ++ join_strings
           (imap (fun k file => sitemapIndexEntry (now k) file) files)
      ++ "</sitemapindex>".
Proof.
  eexists _, _. split; [reflexivity|]. split.
  { rewrite length_app, length_map, companySitemaps_length. simpl. lia. }
  split.
  { unfold sitemapXmlWrites. rewrite !map_app, !map_map. cbn [map app].
    rewrite <- !app_assoc. cbn [app]. f_equal.
    apply map_ext. by intros [file xml]. }
  split.
  { unfold sitemapXmlWrites. cbv zeta.
    match goal with
    | |- last (?a ++ [ ?x; ?y; ?z ])%list = _ =>
        change (a ++ [ x; y; z ])%list with (a ++ ([ x; y ] ++ [ z ]))%list
    end.
    rewrite app_assoc, last_snoc. reflexivity. }
  unfold sitemapIndexXml. rewrite sitemapIndex_loop. cbn [Nat.add].
  rewrite imap_app. cbn [imap]. rewrite length_map.
  assert (forall l1 l2 : list string,
            join_strings (l1 ++ l2) = join_strings l1 ++ join_strings l2)
    as Hjoin.
  { intros l1 l2. induction l1 as [|x l1 IH]; [reflexivity|].
    cbn [app join_strings fold_right]. fold (join_strings (l1 ++ l2)).
    fold (join_strings l1). by rewrite IH, append_assoc_s. }
  rewrite Hjoin. cbn [join_strings fold_right]. unfold compose.
  rewrite Nat.add_0_r, Nat.add_1_r. rewrite !append_assoc_s. reflexivity.
Qed.

Lemma NoDup_map_inj_seq {B : Type} (f : nat -> B) n m :
  (forall a b, f a = f b -> a = b) -> NoDup (map f (seq n m)).
Proof.
  intros Hinj. change (map f (seq n m)) with (f <$> seq n m).
  apply NoDup_fmap_2_strong; [|apply NoDup_seq].
  intros a b _ _. apply Hinj.
Qed.

Lemma companySitemap_name_inj a b :
  "companies-sitemap" ++ string_of_nat (a + 1) ++ ".xml"
  = "companies-sitemap" ++ string_of_nat (b + 1) ++ ".xml" -> a = b.
Proof.
  intros H%append_inj_l%append_inj_r%string_of_nat_inj. lia.
Qed.

(** X16.  No sitemap file is written twice: the paths of the XML files
    that [generateSitemaps] writes are pairwise distinct, so no chunk of
    salons overwrites another one, nor the city or state sitemap, nor the
    index. *)
Theorem sitemap_paths_distinct (now : nat -> string) (outputDir : string)
    (salons : list ProcessedSalon.t) (cities : list ProcessedCity.t)
    (states : list ProcessedState.t) :
  NoDup (map fst (sitemapXmlWrites now outputDir salons cities states)).
Proof.
  assert (map fst (sitemapXmlWrites now outputDir salons cities states)
          = (map (fun file => [ outputDir; "sitemaps"; file ])
               (map fst (companySitemaps salons))
             ++ [ [ outputDir; "sitemaps"; "cities-sitemap.xml" ];
                  [ outputDir; "sitemaps"; "states-sitemap.xml" ];
                  [ outputDir; "sitemap.xml" ] ])%list) as ->.
  { unfold sitemapXmlWrites. rewrite !map_app, !map_map. cbn [map app].
    f_equal. apply map_ext. by intros [file xml]. }
  rewrite companySitemaps_filenames, map_map.
  apply NoDup_app. split; [|split].
  - apply (NoDup_map_inj_seq
             (fun k => [ outputDir; "sitemaps";
                         "companies-sitemap" ++ string_of_nat (k + 1) ++ ".xml" ])).
    intros a b H. apply companySitemap_name_inj.
    exact (f_equal (fun path => nth 2 path EmptyString) H).
  - intros path Hin Hother.
    apply list_elem_of_In, in_map_iff in Hin as (k & <- & _).
    apply elem_of_cons in Hother as [H|Hother].
    { apply (f_equal (fun path => String.get 1 (nth 2 path EmptyString))) in H.
      vm_compute in H. discriminate H. }
    apply elem_of_cons in Hother as [H|Hother].
    { apply (f_equal (fun path => String.get 0 (nth 2 path EmptyString))) in H.
      vm_compute in H. discriminate H. }
    apply list_elem_of_singleton in Hother.
    apply (f_equal length) in Hother. discriminate Hother.
  - apply NoDup_cons. split.
    + intros [H|[H|H%elem_of_nil]%elem_of_cons]%elem_of_cons; [| |done].
      * apply (f_equal (fun path => String.get 0 (nth 2 path EmptyString))) in H.
        vm_compute in H. discriminate H.
      * apply (f_equal length) in H. discriminate H.
    + apply NoDup_cons. split; [|apply NoDup_singleton].
      intros H%list_elem_of_singleton.
      apply (f_equal length) in H. discriminate H.
Qed.

(** ** The description shown in a provider card *)

(** X17.  The description shown in a provider card, measured as the script
    measures it, in UTF-16 code units: it is never empty and never longer
    than 153 units; a description of at most 150 units is shown whole; a
    longer one is cut to its first 150 units followed by three dots, whatever
    the unit at the cut is (also the first half of a surrogate pair, whose
    second half is then lost); without a description, or with an empty one,
    the stock sentence is shown. *)
Theorem description_preview_bounded (description : option utf16) :
  descriptionPreview description <> [] /\
  length (descriptionPreview description) <= 153 /\
  (forall d, description = Some d -> d <> [] -> length d <= 150 ->
             descriptionPreview description = d) /\
  (forall d, description = Some d -> 150 < length d ->
             length (descriptionPreview description) = 153 /\
             take 150 (descriptionPreview description) = take 150 d /\
             drop 150 (descriptionPreview description) = code_units "..." /\
             (forall i, i < 150 ->
                descriptionPreview description !! i = d !! i) /\
             descriptionPreview description !! 150 = Some 46%N) /\
  (description = None \/ description = Some [] ->
   descriptionPreview description
   = code_units "Professional electrolysis services for permanent hair removal.").
Proof.
  assert (forall d, d <> [] -> length d <= 150 ->
                    descriptionPreview (Some d) = d) as Hshort.
  { intros [|u d] Hne Hlen; [done|]. unfold descriptionPreview.
    destruct (Nat.ltb_spec 150 (length (u :: d))); [lia|].
    by rewrite app_nil_r, take_ge. }
  assert (forall d, 150 < length d ->
                    descriptionPreview (Some d)
                    = (take 150 d ++ code_units "...")%list) as Hlong.
  { intros [|u d] Hlen; [simpl in Hlen; lia|]. unfold descriptionPreview.
    by destruct (Nat.ltb_spec 150 (length (u :: d))); [|lia]. }
  assert (forall d : utf16, 150 < length d -> length (take 150 d) = 150)
    as Hlen150 by (intros d Hlen; rewrite length_take; lia).
  split; [|split; [|split; [|split]]].
  - destruct description as [d|]; [|done].
    destruct d as [|u d]; [done|].
    destruct (Nat.le_gt_cases (length (u :: d)) 150) as [Hle|Hgt].
    + by rewrite Hshort.
    + rewrite Hlong by done. intros Heq.
      apply (f_equal length) in Heq. rewrite length_app, Hlen150 in Heq by done.
      discriminate Heq.
  - destruct description as [d|]; [|vm_compute; lia].
    destruct d as [|u d]; [vm_compute; lia|].
    destruct (Nat.le_gt_cases (length (u :: d)) 150) as [Hle|Hgt].
    + rewrite Hshort by done. lia.
    + rewrite Hlong, length_app, Hlen150 by done.
      change (length (code_units "...")) with 3. lia.
  - intros d -> Hne Hlen. by apply Hshort.
  - intros d -> Hlen. rewrite Hlong by done.
    pose proof (Hlen150 d Hlen) as H150.
    split; [|split; [|split; [|split]]].
    + rewrite length_app, H150. reflexivity.
    + rewrite take_app_le by lia. apply take_ge. lia.
    + rewrite drop_app_ge by lia. by rewrite H150.
    + intros i Hi. rewrite (lookup_app_l (take 150 d)) by lia.
      by apply lookup_take_lt.
    + rewrite (lookup_app_r (take 150 d)) by lia. by rewrite H150.
  - by intros [->| ->].
Qed.

(** The cut does not look at what it cuts: a description of 149 letters and
    one character outside the basic plane (two code units, 151 in all) is
    shown with the first half of that character followed by the dots. *)
Example descriptionPreview_splits_a_pair :
  drop 148 (descriptionPreview
              (Some (repeat 97%N 149 ++ [ 55357%N; 56832%N ])%list))
  = [ 97%N; 55357%N; 46%N; 46%N; 46%N ].
Proof. reflexivity. Qed.

(** ** Apostrophes in a business name *)

Lemma escapeQuotes_head s :
  forall c s', escapeQuotes s = String c s' ->
               Ascii.eqb c apostrophe = false.
Proof.
  destruct s as [|x s]; simpl; [done|].
  destruct (Ascii.eqb x apostrophe) eqn:Hx; intros c s' [= <- _]; done.
Qed.

Lemma unescape_escape s : unescapeQuotes (escapeQuotes s) = s.
Proof.
  induction s as [|x s IH]; [done|]. cbn [escapeQuotes].
  destruct (Ascii.eqb_spec x apostrophe) as [->|Hne].
  - cbn [unescapeQuotes]. rewrite Ascii.eqb_refl. simpl. by rewrite IH.
  - cbn [unescapeQuotes]. destruct (escapeQuotes s) as [|c t] eqn:Hs.
    + destruct s as [|y s]; [done|]. simpl in Hs.
      by destruct (Ascii.eqb y apostrophe).
    + rewrite (escapeQuotes_head s c t Hs), andb_false_r. by rewrite IH.
Qed.

(** X18.  Escaping the apostrophes of a business name loses nothing and
    touches nothing else: dropping the backslash before each apostrophe
    gives the name back; the result is longer by one character per
    apostrophe of the name; and the backslashes of the name itself are
    copied as they are, so the result has one backslash more per
    apostrophe, and a name without apostrophes is unchanged. *)
Theorem escapeQuotes_lossless (businessName : string) :
  unescapeQuotes (escapeQuotes businessName) = businessName /\
  String.length (escapeQuotes businessName)
  = String.length businessName + count_char apostrophe businessName /\
  count_char apostrophe (escapeQuotes businessName)
  = count_char apostrophe businessName /\
  count_char backslash (escapeQuotes businessName)
  = count_char backslash businessName + count_char apostrophe businessName /\
  (count_char apostrophe businessName = 0 ->
   escapeQuotes businessName = businessName).
Proof.
  split; [apply unescape_escape|].
  induction businessName as [|x s (IHlen & IHq & IHb & IHid)];
    [by repeat split|].
  cbn [escapeQuotes count_char String.length].
  destruct (Ascii.eqb_spec x apostrophe) as [->|Hne].
  - cbn [count_char String.length]. rewrite IHlen, IHq, IHb.
    change (Ascii.eqb backslash apostrophe) with false.
    change (Ascii.eqb apostrophe apostrophe) with true.
    change (Ascii.eqb backslash backslash) with true.
    change (Ascii.eqb apostrophe backslash) with false.
    repeat split; lia.
  - cbn [count_char String.length]. rewrite IHlen, IHq, IHb.
    destruct (Ascii.eqb x apostrophe) eqn:Hx;
      [by apply Ascii.eqb_eq in Hx|].
    repeat split; try lia. intros H. f_equal. apply IHid. lia.
Qed.

Example escapeQuotes_example :
  escapeQuotes "Zoe's Salon" = "Zoe\'s Salon" /\
  unescapeQuotes "Zoe\'s Salon" = "Zoe's Salon".
Proof. split; reflexivity. Qed.

Example first_occurrences_example :
  first_occurrences [ "1"; "2"; "1"; "3"; "2" ] = [ "1"; "2"; "3" ].
Proof. reflexivity. Qed.

(** With an empty city id the page lists a salon that the projected record
    does not. *)
Example city_page_empty_id :
  ProcessedCity.salon_ids
    (processCity ascii_toLowerCase Fixture.slug
       (processedSalons Fixture.slug
          [ Fixture.salon "g" "Salon G" None (Some "") None None None None ])
       (City.mk "" "Nowhere" None None None)) = [] /\
  map ProcessedSalon.id
    (citySalons ascii_toLowerCase
       (processedSalons Fixture.slug
          [ Fixture.salon "g" "Salon G" None (Some "") None None None None ])
       (processCity ascii_toLowerCase Fixture.slug
          (processedSalons Fixture.slug
             [ Fixture.salon "g" "Salon G" None (Some "") None None None None ])
          (City.mk "" "Nowhere" None None None))) = [ "g" ].
Proof. split; reflexivity. Qed.
